(** * LeetCode practice assistant: review scheduling, selection, session
      recording and statistics.

    A shallow embedding of [leetcode_assistant.py].  The program is a
    menu-driven script around one mutable dictionary [data] with the keys
    ["problems"] (slug -> problem record) and ["sessions"] (a list of
    session records).  Python values are modelled as follows.

    - [str] is [string].  [str.lower], [str.strip] and [str.isspace] are
      modelled on ASCII text ([isascii]), where they change the letters A
      to Z and remove the characters 0x09-0x0d, 0x1c-0x1f and 0x20; the
      properties of what is typed are stated for ASCII text.
    - [dict] is an association list in insertion order (the order in which
      [.items()] iterates); a lookup returns the first binding.
    - [int] is [Z].
    - a naive [datetime] is the number of microseconds since
      0001-01-01 00:00:00 and a [timedelta] a number of microseconds, both
      in [Z]; the calendar arithmetic is the one of the [datetime] module.
      The bounds of the type ([MINYEAR], [MAXYEAR]) are not modelled: the
      formatted timestamps are meaningful for the years 1000 to 9999.
    - [float] is IEEE-754 binary64 as specified by [SpecFloat].
    - [input()], [datetime.now()] and [random.choice] read from an explicit
      world: the lines still to be typed, the successive clock readings and
      the successive random draws.  What is printed is not modelled, and
      [save_data] is the identity on the in-memory [data]. *)

From Stdlib Require Import ZArith List String Ascii Bool Lia.
From Stdlib Require Import SpecFloat.
Import ListNotations.

Local Open Scope string_scope.
Local Open Scope Z_scope.

(** ** Python strings *)

Module PyStr.

(** [s.isascii()]: every character is below U+0080. *)
Fixpoint isascii (s : string) : bool :=
  match s with
  | EmptyString => true
  | String c r => (N_of_ascii c <? 128)%N && isascii r
  end.

(** [c.isspace()] on ASCII: tab, line feed, vertical tab, form feed,
    carriage return, the four separators 0x1c-0x1f and the space. *)
Definition is_space (c : ascii) : bool :=
  let n := N_of_ascii c in
  ((9 <=? n) && (n <=? 13) || (28 <=? n) && (n <=? 32))%N.

(** The case mapping of [str.lower] on ASCII: the letters A to Z. *)
Definition lower_char (c : ascii) : ascii :=
  let n := N_of_ascii c in
  if ((65 <=? n) && (n <=? 90))%N then ascii_of_N (n + 32) else c.

(** [s.lower()] *)
Fixpoint lower (s : string) : string :=
  match s with
  | EmptyString => EmptyString
  | String c r => String (lower_char c) (lower r)
  end.

Fixpoint lstrip (s : string) : string :=
  match s with
  | EmptyString => EmptyString
  | String c r => if is_space c then lstrip r else s
  end.

Fixpoint rstrip (s : string) : string :=
  match s with
  | EmptyString => EmptyString
  | String c r =>
      match rstrip r with
      | EmptyString => if is_space c then EmptyString else String c EmptyString
      | r' => String c r'
      end
  end.

(** [s.strip()] *)
Definition strip (s : string) : string := rstrip (lstrip s).

(** [s.split(sep)] for a one-character separator. *)
Fixpoint split (sep : ascii) (s : string) : list string :=
  match s with
  | EmptyString => [EmptyString]
  | String c r =>
      if Ascii.eqb c sep then EmptyString :: split sep r
      else match split sep r with
           | h :: t => String c h :: t
           | [] => [String c EmptyString]
           end
  end.

(** Truth value of a string: the empty string is false. *)
Definition truthy (s : string) : bool :=
  match s with EmptyString => false | _ => true end.

(** Truth value of an optional string ([None] is false). *)
Definition truthy_opt (o : option string) : bool :=
  match o with Some s => truthy s | None => false end.

(** [x in l] for a list of strings. *)
Definition mem (x : string) (l : list string) : bool :=
  existsb (String.eqb x) l.

End PyStr.

(** ** Python dictionaries with string keys *)

Module PyDict.

Definition dict (V : Type) : Type := list (string * V).

Section Ops.
Context {V : Type}.

(** [d[k]], [None] standing for [KeyError]. *)
Fixpoint get (k : string) (d : dict V) : option V :=
  match d with
  | [] => None
  | (k', v) :: r => if String.eqb k k' then Some v else get k r
  end.

(** [k in d] *)
Definition contains (k : string) (d : dict V) : bool :=
  match get k d with Some _ => true | None => false end.

(** [d[k] = v]: an existing key keeps its place, a new key goes last. *)
Fixpoint set (k : string) (v : V) (d : dict V) : dict V :=
  match d with
  | [] => [(k, v)]
  | (k', v') :: r =>
      if String.eqb k k' then (k', v) :: r else (k', v') :: set k v r
  end.

Definition keys (d : dict V) : list string := map fst d.
Definition values (d : dict V) : list V := map snd d.
Definition items (d : dict V) : list (string * V) := d.

End Ops.

End PyDict.

(** ** The [datetime] module *)

Module PyTime.

Definition datetime := Z.
Definition timedelta := Z.

Definition us_per_second : Z := 1000000.
Definition us_per_day : Z := 86400 * us_per_second.

(** [timedelta(days=n)] *)
Definition days (n : Z) : timedelta := n * us_per_day.

Definition _is_leap (year : Z) : bool :=
  (year mod 4 =? 0) && (negb (year mod 100 =? 0) || (year mod 400 =? 0)).

Definition _days_before_year (year : Z) : Z :=
  let y := year - 1 in
  y * 365 + y / 4 - y / 100 + y / 400.

Definition _DAYS_IN_MONTH (month : Z) : Z :=
  match month with
  | 1 => 31 | 2 => 28 | 3 => 31 | 4 => 30 | 5 => 31 | 6 => 30
  | 7 => 31 | 8 => 31 | 9 => 30 | 10 => 31 | 11 => 30 | 12 => 31
  | _ => -1
  end.

Definition _DAYS_BEFORE_MONTH (month : Z) : Z :=
  match month with
  | 1 => 0 | 2 => 31 | 3 => 59 | 4 => 90 | 5 => 120 | 6 => 151
  | 7 => 181 | 8 => 212 | 9 => 243 | 10 => 273 | 11 => 304 | 12 => 334
  | _ => -1
  end.

Definition _days_in_month (year month : Z) : Z :=
  if (month =? 2) && _is_leap year then 29 else _DAYS_IN_MONTH month.

Definition _days_before_month (year month : Z) : Z :=
  _DAYS_BEFORE_MONTH month
  + (if (2 <? month) && _is_leap year then 1 else 0).

(** year, month, day -> ordinal, 0001-01-01 being day 1. *)
Definition _ymd2ord (year month day : Z) : Z :=
  _days_before_year year + _days_before_month year month + day.

Definition _DI400Y : Z := 146097.
Definition _DI100Y : Z := 36524.
Definition _DI4Y : Z := 1461.

(** ordinal -> (year, month, day) *)
Definition _ord2ymd (n : Z) : Z * Z * Z :=
  let n := n - 1 in
  let n400 := n / _DI400Y in
  let n := n mod _DI400Y in
  let year := n400 * 400 + 1 in
  let n100 := n / _DI100Y in
  let n := n mod _DI100Y in
  let n4 := n / _DI4Y in
  let n := n mod _DI4Y in
  let n1 := n / 365 in
  let n := n mod 365 in
  let year := year + n100 * 100 + n4 * 4 + n1 in
  if (n1 =? 4) || (n100 =? 4) then (year - 1, 12, 31)
  else
    let leapyear := (n1 =? 3) && (negb (n4 =? 24) || (n100 =? 3)) in
    let month := Z.shiftr (n + 50) 5 in
    let preceding :=
      _DAYS_BEFORE_MONTH month
      + (if (2 <? month) && leapyear then 1 else 0) in
    if n <? preceding then
      let month := month - 1 in
      let preceding :=
        preceding
        - (_DAYS_IN_MONTH month
           + (if (month =? 2) && leapyear then 1 else 0)) in
      (year, month, n - preceding + 1)
    else (year, month, n - preceding + 1).

(** [datetime(year, month, day, hour, minute, second)], arguments taken
    as valid. *)
Definition make (year month day hour minute second : Z) : datetime :=
  (((_ymd2ord year month day - 1) * 86400
    + hour * 3600 + minute * 60 + second) * us_per_second).

Definition toordinal (t : datetime) : Z := t / us_per_day + 1.
Definition second_of_day (t : datetime) : Z :=
  (t mod us_per_day) / us_per_second.

(** The instant with its microseconds dropped: what a timestamp written
    with [DATE_FORMAT] retains. *)
Definition whole_second (t : datetime) : datetime :=
  t / us_per_second * us_per_second.

Definition digit_char (d : Z) : ascii := ascii_of_N (48 + Z.to_N d).

Definition pad2 (n : Z) (k : string) : string :=
  String (digit_char (n / 10)) (String (digit_char (n mod 10)) k).

Definition pad4 (n : Z) (k : string) : string :=
  String (digit_char (n / 1000))
    (String (digit_char (n / 100 mod 10))
       (String (digit_char (n / 10 mod 10))
          (String (digit_char (n mod 10)) k))).

(** [t.strftime("%Y-%m-%d %H:%M:%S")] *)
Definition strftime (t : datetime) : string :=
  let '(y, m, d) := _ord2ymd (toordinal t) in
  let s := second_of_day t in
  pad4 y (String "-" (pad2 m (String "-" (pad2 d (String " "
    (pad2 (s / 3600) (String ":" (pad2 (s mod 3600 / 60) (String ":"
      (pad2 (s mod 60) EmptyString)))))))))).

Definition digit_val (c : ascii) : option Z :=
  let n := Z.of_N (N_of_ascii c) in
  if (48 <=? n) && (n <=? 57) then Some (n - 48) else None.

(** Reads exactly [k] decimal digits. *)
Fixpoint digits (k : nat) (acc : Z) (s : string) : option (Z * string) :=
  match k with
  | O => Some (acc, s)
  | S k' =>
      match s with
      | EmptyString => None
      | String c r =>
          match digit_val c with
          | Some d => digits k' (10 * acc + d) r
          | None => None
          end
      end
  end.

Definition expect (c : ascii) (s : string) : option string :=
  match s with
  | String c' r => if Ascii.eqb c c' then Some r else None
  | EmptyString => None
  end.

(** [datetime.strptime(s, "%Y-%m-%d %H:%M:%S")], [None] standing for
    [ValueError].  The parser accepts the fixed-width spelling that
    [strftime] writes; the Python parser also accepts a few other
    spellings of the same fields (a month or a day without its leading
    zero), which the program never writes. *)
Definition strptime (s : string) : option datetime :=
  match digits 4 0 s with None => None | Some (y, s) =>
  match expect "-" s with None => None | Some s =>
  match digits 2 0 s with None => None | Some (m, s) =>
  match expect "-" s with None => None | Some s =>
  match digits 2 0 s with None => None | Some (d, s) =>
  match expect " " s with None => None | Some s =>
  match digits 2 0 s with None => None | Some (hh, s) =>
  match expect ":" s with None => None | Some s =>
  match digits 2 0 s with None => None | Some (mm, s) =>
  match expect ":" s with None => None | Some s =>
  match digits 2 0 s with None => None | Some (ss, s) =>
  match s with
  | EmptyString =>
      if (1 <=? y) && (1 <=? m) && (m <=? 12)
         && (1 <=? d) && (d <=? _days_in_month y m)
         && (hh <=? 23) && (mm <=? 59) && (ss <=? 59)
      then Some (make y m d hh mm ss)
      else None
  | _ => None
  end end end end end end end end end end end end.

(** The instants whose year has four digits. *)
Definition min_fmt : datetime := make 1000 1 1 0 0 0.
Definition max_fmt : datetime := make 10000 1 1 0 0 0.

End PyTime.

(** ** Python floats *)

Module PyFloat.

Definition float := spec_float.

Definition prec : Z := 53.
Definition emax : Z := 1024.

(** [float(n)] for an integer [n] *)
Definition of_int (n : Z) : float := binary_normalize prec emax n 0 false.

(** [a / b] for integers [a] and [b > 0]: the correctly rounded quotient. *)
Definition int_truediv (a b : Z) : float :=
  match a, b with
  | Zpos p, Zpos q =>
      SFdiv prec emax (S754_finite false p 0) (S754_finite false q 0)
  | Zneg p, Zpos q =>
      SFdiv prec emax (S754_finite true p 0) (S754_finite false q 0)
  | _, _ => S754_zero false
  end.

(** [x / y] *)
Definition truediv (x y : float) : float := SFdiv prec emax x y.

(** The integer nearest to [m * 2^e], ties going to the even one. *)
Definition nearest_even (m e : Z) : Z :=
  if 0 <=? e then m * 2 ^ e
  else
    let d := 2 ^ (- e) in
    let q := m / d in
    let r := m mod d in
    match 2 * r ?= d with
    | Lt => q
    | Gt => q + 1
    | Eq => if Z.even q then q else q + 1
    end.

(** [round(x, 1)]: the decimal with one digit after the point nearest to
    the exact value of [x] (ties to even), read back as a float; zeros,
    infinities and NaN are returned as they are, and the sign is kept. *)
Definition round1 (x : float) : float :=
  match x with
  | S754_finite s m e =>
      match nearest_even (10 * Zpos m) e with
      | Zpos n =>
          SFdiv prec emax (S754_finite s n 0) (S754_finite false 10 0)
      | _ => S754_zero s
      end
  | _ => x
  end.

(** [x < 0] *)
Definition is_negative (x : float) : bool := SFltb x (S754_zero false).

End PyFloat.

Import PyStr PyDict PyTime PyFloat.

(** ** The data model *)

(** A value of [data["problems"]]. *)
Record problem := mk_problem {
  p_title : string;
  p_slug : string;
  p_url : string;
  p_difficulty : string;
  p_topics : list string;
  p_attempts : Z;
  p_last_status : option string;
  p_last_practiced : option string;
  p_next_review : option string
}.

(** An element of [data["sessions"]]. *)
Record session := mk_session {
  s_problem_id : string;
  s_start : string;
  s_end : string;
  s_minutes : float;
  s_status : string;
  s_notes : string
}.

Record data := mk_data {
  problems : dict problem;
  sessions : list session
}.

(** [load_data()] when there is no data file yet. *)
Definition empty_data : data := mk_data [] [].

(** ** The world and the monad of the script *)

Inductive exn : Type :=
| EOFError
| KeyError (key : string)
| ValueError (text : string)
| IndexError.

Inductive completion (A : Type) : Type :=
| Ok (a : A)
| Raise (e : exn).
Arguments Ok {A} a.
Arguments Raise {A} e.

(** The store [data] that every function of the script receives by
    reference, the lines that remain on the standard input, the clock as
    the sequence of its readings and the random source as the sequence of
    its draws. *)
Record world := mk_world {
  w_data : data;
  w_stdin : list string;
  w_clock : nat -> datetime;
  w_reads : nat;
  w_random : nat -> nat;
  w_draws : nat
}.

(** A computation returns or raises, and leaves a world either way. *)
Definition M (A : Type) : Type := world -> completion A * world.

Definition ret {A} (a : A) : M A := fun w => (Ok a, w).

Definition raise {A} (e : exn) : M A := fun w => (Raise e, w).

Definition bind {A B} (m : M A) (k : A -> M B) : M B :=
  fun w =>
    match m w with
    | (Ok a, w') => k a w'
    | (Raise e, w') => (Raise e, w')
    end.

Notation "x <- m ;; k" := (bind m (fun x => k))
  (at level 61, m at next level, right associativity).
Notation "m ;;; k" := (bind m (fun _ => k))
  (at level 61, right associativity).

Definition lift {A} (r : completion A) : M A := fun w => (r, w).

Definition get_data : M data := fun w => (Ok (w_data w), w).

Definition set_data (d : data) (w : world) : world :=
  mk_world d (w_stdin w) (w_clock w) (w_reads w) (w_random w) (w_draws w).

Definition put_data (d : data) : M unit := fun w => (Ok tt, set_data d w).

Definition set_stdin (l : list string) (w : world) : world :=
  mk_world (w_data w) l (w_clock w) (w_reads w) (w_random w) (w_draws w).

(** [input(prompt)]: the next line, [EOFError] at the end of the input. *)
Definition input : M string :=
  fun w =>
    match w_stdin w with
    | [] => (Raise EOFError, w)
    | l :: rest => (Ok l, set_stdin rest w)
    end.

(** [datetime.now()] *)
Definition datetime_now : M datetime :=
  fun w =>
    (Ok (w_clock w (w_reads w)),
     mk_world (w_data w) (w_stdin w) (w_clock w) (S (w_reads w))
       (w_random w) (w_draws w)).

(** [random.choice(l)] *)
Definition random_choice (l : list string) : M string :=
  fun w =>
    match l with
    | [] => (Raise IndexError, w)
    | x :: _ =>
        (Ok (nth (w_random w (w_draws w) mod List.length l)%nat l x),
         mk_world (w_data w) (w_stdin w) (w_clock w) (w_reads w)
           (w_random w) (S (w_draws w)))
    end.

(** [while True: x = input(...); if <accept x>: break], on the lines that
    remain. *)
Fixpoint input_until_from {A} (accept : string -> option A)
    (lines : list string) : completion A * list string :=
  match lines with
  | [] => (Raise EOFError, [])
  | l :: rest =>
      match accept l with
      | Some a => (Ok a, rest)
      | None => input_until_from accept rest
      end
  end.

Definition input_until {A} (accept : string -> option A) : M A :=
  fun w =>
    let (r, rest) := input_until_from accept (w_stdin w) in
    (r, set_stdin rest w).

(** ** The script *)

Definition save_data : M unit := ret tt.

Definition input_non_empty : M string :=
  input_until (fun l => let val := strip l in
                        if truthy val then Some val else None).

Definition normalize_difficulty (diff : string) : option string :=
  let diff := strip (lower diff) in
  if mem diff ["e"; "easy"] then Some "easy"
  else if mem diff ["m"; "medium"; "med"] then Some "medium"
  else if mem diff ["h"; "hard"] then Some "hard"
  else None.

Definition add_problem : M unit :=
  title <- input_non_empty ;;
  slug <- input_non_empty ;;
  let url_default := "https://leetcode.com/problems/" ++ slug ++ "/" in
  url_input <- input ;;
  let url := if truthy (strip url_input) then strip url_input
             else url_default in
  difficulty <- input_until normalize_difficulty ;;
  topics_line <- input ;;
  let topics_input := strip topics_line in
  let topics := filter truthy (map strip (split "," topics_input)) in
  let problem_id := slug in
  d <- get_data ;;
  put_data
    (mk_data
       (set problem_id
          (mk_problem title slug url difficulty topics 0 None None None)
          (problems d))
       (sessions d)) ;;;
  save_data.

(** The loop of [filter_problems] over [data["problems"].items()], with the
    list [result] built so far. *)
Fixpoint filter_loop (now : datetime) (diff_filter topic_filter : option string)
    (only_due : bool) (items : list (string * problem))
    (result : list string) : completion (list string) :=
  match items with
  | [] => Ok result
  | (pid, p) :: rest =>
      let continue := filter_loop now diff_filter topic_filter only_due rest in
      if truthy_opt diff_filter
         && negb (match diff_filter with
                  | Some f => String.eqb (p_difficulty p) f
                  | None => false
                  end)
      then continue result
      else if truthy_opt topic_filter
              && negb (match topic_filter with
                       | Some f => mem f (map lower (p_topics p))
                       | None => false
                       end)
      then continue result
      else if only_due then
        match p_next_review p with
        | None => continue (result ++ [pid])%list
        | Some nr =>
            match strptime nr with
            | None => Raise (ValueError nr)
            | Some nr_dt =>
                if now <? nr_dt then continue result
                else continue (result ++ [pid])%list
            end
        end
      else continue (result ++ [pid])%list
  end.

Definition filter_problems (diff_filter topic_filter : option string)
    (only_due : bool) : M (list string) :=
  now <- datetime_now ;;
  d <- get_data ;;
  lift (filter_loop now diff_filter topic_filter only_due
          (items (problems d)) []).

(** Lines 127-140 of [choose_problem]: the filters as they are read. *)
Definition read_filters : M (option string * option string * bool) :=
  answer <- input ;;
  let use_filters := String.eqb (lower (strip answer)) "y" in
  if use_filters then
    diff_line <- input ;;
    let diff_input := strip diff_line in
    let diff_filter :=
      if truthy diff_input then normalize_difficulty diff_input else None in
    topic_line <- input ;;
    let topic_input := lower (strip topic_line) in
    let topic_filter :=
      if truthy topic_input then Some topic_input else None in
    due_line <- input ;;
    let only_due := String.eqb (lower (strip due_line)) "y" in
    ret (diff_filter, topic_filter, only_due)
  else ret (None, None, false).

(** Lines 127-142 of [choose_problem]: the candidates for the filters
    that are read. *)
Definition select_candidates : M (list string) :=
  filters <- read_filters ;;
  let '(diff_filter, topic_filter, only_due) := filters in
  filter_problems diff_filter topic_filter only_due.

Definition choose_problem : M (option string) :=
  d <- get_data ;;
  match problems d with
  | [] => ret None
  | _ =>
      candidates <- select_candidates ;;
      match candidates with
      | [] => ret None
      | _ =>
          pid <- random_choice candidates ;;
          d <- get_data ;;
          match get pid (problems d) with
          | None => raise (KeyError pid)
          | Some p => ret (Some pid)
          end
      end
  end.

Definition schedule_next_review (status : option string)
    (difficulty : string) : M string :=
  now <- datetime_now ;;
  let status := lower (match status with Some s => s | None => "" end) in
  let delta :=
    if String.eqb status "solved" then
      if String.eqb difficulty "easy" then days 3
      else if String.eqb difficulty "medium" then days 2
      else days 1
    else days 1 in
  ret (strftime (now + delta)).

(** [td.total_seconds()] *)
Definition total_seconds (td : timedelta) : float :=
  int_truediv td us_per_second.

(** Lines 193 and 204-220 of [start_practice_session]: what is computed
    and stored once the problem, the two clock readings, the result and
    the notes are known. *)
Definition record_session (pid : string) (start_time end_time : datetime)
    (status notes : string) : M session :=
  let minutes := truediv (total_seconds (end_time - start_time)) (of_int 60) in
  d <- get_data ;;
  match get pid (problems d) with
  | None => raise (KeyError pid)
  | Some problem =>
      let problem :=
        mk_problem (p_title problem) (p_slug problem) (p_url problem)
          (p_difficulty problem) (p_topics problem)
          (p_attempts problem + 1) (Some status)
          (Some (strftime end_time)) (p_next_review problem) in
      put_data (mk_data (set pid problem (problems d)) (sessions d)) ;;;
      next_review <- schedule_next_review (Some status) (p_difficulty problem) ;;
      let problem :=
        mk_problem (p_title problem) (p_slug problem) (p_url problem)
          (p_difficulty problem) (p_topics problem)
          (p_attempts problem) (p_last_status problem)
          (p_last_practiced problem) (Some next_review) in
      let session_record :=
        mk_session pid (strftime start_time) (strftime end_time)
          (round1 minutes) status notes in
      d <- get_data ;;
      put_data
        (mk_data (set pid problem (problems d))
           (sessions d ++ [session_record])%list) ;;;
      save_data ;;;
      ret session_record
  end.

Definition start_practice_session : M unit :=
  chosen <- choose_problem ;;
  match chosen with
  | None => ret tt
  | Some pid =>
      start_time <- datetime_now ;;
      input ;;;
      end_time <- datetime_now ;;
      status <- input_until
                  (fun l => let status := lower (strip l) in
                            if mem status ["solved"; "partial"; "unsolved"]
                            then Some status else None) ;;
      notes_line <- input ;;
      let notes := strip notes_line in
      record_session pid start_time end_time status notes ;;;
      ret tt
  end.

(** What [stats_overview] prints. *)
Record stats := mk_stats {
  total_problems : Z;
  total_sessions : Z;
  by_difficulty : dict Z;
  solved_count : Z;
  last_sessions : list session
}.

(** The body of the loop of [stats_overview] over the problems. *)
Definition stats_step (acc : dict Z * Z) (p : problem) : dict Z * Z :=
  let (by_difficulty, solved_count) := acc in
  let d := p_difficulty p in
  let by_difficulty :=
    match get d by_difficulty with
    | Some n => set d (n + 1) by_difficulty
    | None => by_difficulty
    end in
  let solved_count :=
    match p_last_status p with
    | Some s => if String.eqb s "solved" then solved_count + 1
                else solved_count
    | None => solved_count
    end in
  (by_difficulty, solved_count).

(** [l[-n:]] *)
Definition last_n {A} (n : nat) (l : list A) : list A :=
  skipn (List.length l - n) l.

Definition stats_overview : M stats :=
  d <- get_data ;;
  let problems := problems d in
  let sessions := sessions d in
  let '(by_difficulty, solved_count) :=
    fold_left stats_step (values problems)
      ([("easy", 0); ("medium", 0); ("hard", 0)], 0) in
  ret (mk_stats (Z.of_nat (List.length problems))
         (Z.of_nat (List.length sessions))
         by_difficulty solved_count (last_n 5 sessions)).

(** [list_problems] reads the catalog and prints it. *)
Definition list_problems : M unit :=
  d <- get_data ;;
  ret tt.

(** The loop of [main_menu].  Every turn reads a line, so the number of
    lines that remain bounds the number of turns: when no turn is left, no
    line is left either and [input] raises [EOFError]. *)
Fixpoint main_menu_loop (turns : nat) : M unit :=
  match turns with
  | O => raise EOFError
  | S turns =>
      line <- input ;;
      let choice := strip line in
      if String.eqb choice "1" then add_problem ;;; main_menu_loop turns
      else if String.eqb choice "2" then list_problems ;;; main_menu_loop turns
      else if String.eqb choice "3" then
        start_practice_session ;;; main_menu_loop turns
      else if String.eqb choice "4" then stats_overview ;;; main_menu_loop turns
      else if String.eqb choice "5" then ret tt
      else main_menu_loop turns
  end.

(** [main_menu], on the data that [load_data] returns: the data of the
    world. *)
Definition main_menu : M unit :=
  fun w => main_menu_loop (S (List.length (w_stdin w))) w.

(** ** Specification-side definitions *)

(** The world, the value and the data after a computation. *)
Definition world_after {A} (m : M A) (w : world) : world := snd (m w).
Definition value_of {A} (m : M A) (w : world) : completion A := fst (m w).
Definition data_after {A} (m : M A) (w : world) : data :=
  w_data (world_after m w).

(** The reading that the next [datetime.now()] returns. *)
Definition next_reading (w : world) : datetime := w_clock w (w_reads w).

(** The review intervals in days, by result and difficulty. *)
Definition review_table : list (string * string * Z) :=
  [("solved", "easy", 3); ("solved", "medium", 2); ("solved", "hard", 1);
   ("partial", "easy", 1); ("partial", "medium", 1); ("partial", "hard", 1);
   ("unsolved", "easy", 1); ("unsolved", "medium", 1);
   ("unsolved", "hard", 1)].

(** The invariant of a problem record; the counter of attempts is a
    natural number. *)
Definition problem_inv (p : problem) : Prop :=
  0 <= p_attempts p
  /\ (p_attempts p = 0 <-> p_last_status p = None)
  /\ (p_last_status p = None <-> p_last_practiced p = None)
  /\ (p_next_review p <> None <-> p_last_practiced p <> None).

(** A property of every entry of the catalog. *)
Definition all_problems (Q : string -> problem -> Prop) (d : data) : Prop :=
  forall pid p, In (pid, p) (problems d) -> Q pid p.

Definition data_inv (d : data) : Prop :=
  all_problems (fun _ p => problem_inv p) d.

(** The data that the script can build, starting without a data file. *)
Inductive reachable : data -> Prop :=
| reach_empty : reachable empty_data
| reach_add_problem w :
    reachable (w_data w) -> reachable (w_data (world_after add_problem w))
| reach_practice_session w :
    reachable (w_data w) ->
    reachable (w_data (world_after start_practice_session w)).


(** Lines that are ASCII text, and a catalog whose topics are: the text on
    which [lower] and [strip] are [str.lower] and [str.strip]. *)
Definition ascii_lines (lines : list string) : bool := forallb isascii lines.

Definition ascii_topics (d : data) : bool :=
  forallb (fun kp : string * problem => forallb isascii (p_topics (snd kp)))
    (problems d).



(** Due: never scheduled, or scheduled not after [now]. *)
Definition is_due (now : datetime) (p : problem) : Prop :=
  p_next_review p = None
  \/ exists nr t, p_next_review p = Some nr /\ strptime nr = Some t /\ t <= now.

(** Every stored [next_review] is a timestamp in [DATE_FORMAT]. *)
Definition timestamps_parse (d : data) : Prop :=
  forall pid p nr,
    In (pid, p) (problems d) -> p_next_review p = Some nr ->
    strptime nr <> None.

(** The test that [filter_loop] applies to one problem, when the stored
    timestamp parses. *)
Definition keeps (now : datetime) (diff_filter topic_filter : option string)
    (only_due : bool) (p : problem) : bool :=
  negb (truthy_opt diff_filter
        && negb (match diff_filter with
                 | Some f => String.eqb (p_difficulty p) f
                 | None => false
                 end))
  && negb (truthy_opt topic_filter
           && negb (match topic_filter with
                    | Some f => mem f (map lower (p_topics p))
                    | None => false
                    end))
  && (negb only_due
      || match p_next_review p with
         | None => true
         | Some nr =>
             match strptime nr with
             | Some nr_dt => negb (now <? nr_dt)
             | None => false
             end
         end).

(** The number of problems of the catalog that some session of the log
    records as solved. *)
Definition solved_in_some_session (d : data) : Z :=
  Z.of_nat
    (List.length
       (filter
          (fun kp =>
             existsb (fun s => String.eqb (s_problem_id s) (fst kp)
                               && String.eqb (s_status s) "solved")
               (sessions d))
          (problems d))).

(** The number of problems whose latest result is "solved". *)
Definition last_status_solved (d : data) : Z :=
  Z.of_nat
    (List.length
       (filter
          (fun p => match p_last_status p with
                    | Some s => String.eqb s "solved"
                    | None => false
                    end)
          (values (problems d)))).

(** [x <= 0] *)
Definition is_nonpositive (x : float) : bool := SFleb x (S754_zero false).

(** The floats with the sign bit set, NaN apart: negative zero, the
    negative numbers and minus infinity. *)
Definition negative_form (x : float) : Prop :=
  match x with
  | S754_zero true | S754_finite true _ _ | S754_infinity true => True
  | _ => False
  end.

(** The end of [_ord2ymd]: month and day from the day [n] of the year. *)
Definition month_day (year n : Z) (leapyear : bool) : Z * Z * Z :=
  let month := Z.shiftr (n + 50) 5 in
  let preceding :=
    _DAYS_BEFORE_MONTH month
    + (if (2 <? month) && leapyear then 1 else 0) in
  if n <? preceding then
    let month := month - 1 in
    let preceding :=
      preceding
      - (_DAYS_IN_MONTH month
         + (if (month =? 2) && leapyear then 1 else 0)) in
    (year, month, n - preceding + 1)
  else (year, month, n - preceding + 1).

Definition month_day_ok (leapyear : bool) (n : Z) : bool :=
  let '(_, m, d) := month_day 0 n leapyear in
  (1 <=? m) && (m <=? 12) && (1 <=? d)
  && (d <=? (if (m =? 2) && leapyear then 29 else _DAYS_IN_MONTH m))
  && (_DAYS_BEFORE_MONTH m + (if (2 <? m) && leapyear then 1 else 0) + d
      =? n + 1).

(** The world after one reading of the clock. *)
Definition tick (w : world) : world :=
  mk_world (w_data w) (w_stdin w) (w_clock w) (S (w_reads w))
    (w_random w) (w_draws w).

(** The interval that [schedule_next_review] adds to the clock. *)
Definition review_delta (status : option string) (difficulty : string)
  : timedelta :=
  let status := lower (match status with Some s => s | None => "" end) in
  if String.eqb status "solved" then
    if String.eqb difficulty "easy" then days 3
    else if String.eqb difficulty "medium" then days 2
    else days 1
  else days 1.

(** The record of problem [p] once a session is logged. *)
Definition logged_problem (p : problem) (status : string)
    (end_time logged_at : datetime) : problem :=
  mk_problem (p_title p) (p_slug p) (p_url p) (p_difficulty p) (p_topics p)
    (p_attempts p + 1) (Some status) (Some (strftime end_time))
    (Some (strftime
             (logged_at + review_delta (Some status) (p_difficulty p)))).

(** The session record that is appended to the log. *)
Definition logged_session (pid : string) (start_time end_time : datetime)
    (status notes : string) : session :=
  mk_session pid (strftime start_time) (strftime end_time)
    (round1 (truediv (total_seconds (end_time - start_time)) (of_int 60)))
    status notes.

(** A computation that leaves [data] as it finds it. *)
Definition reads_only {A} (m : M A) : Prop :=
  forall w, data_after m w = w_data w.

(** A computation that maintains the property [P] of [data]. *)
Definition preserves {A} (P : data -> Prop) (m : M A) : Prop :=
  forall w, P (w_data w) -> P (data_after m w).

(** A computation that does not add lines to the standard input. *)
Definition consumes {A} (m : M A) : Prop :=
  forall w,
    (List.length (w_stdin (world_after m w)) <= List.length (w_stdin w))%nat.


(** ** Example worlds *)

Definition two_sum : problem :=
  mk_problem "Two Sum" "two-sum" "https://leetcode.com/problems/two-sum/"
    "easy" ["array"; "hash-table"] 0 None None None.

Definition three_sum : problem :=
  mk_problem "3Sum" "3sum" "https://leetcode.com/problems/3sum/"
    "medium" ["arrays"] 0 None None None.

Definition two_problems : data :=
  mk_data [("two-sum", two_sum); ("3sum", three_sum)] [].

(** A clock that returns the given readings in turn, then the last one. *)
Definition clock_of (readings : list datetime) (k : nat) : datetime :=
  nth k readings (last readings 0).

Definition example_world (d : data) (stdin : list string)
    (readings : list datetime) : world :=
  mk_world d stdin (clock_of readings) 0 (fun _ => 0%nat) 0.

Definition one_problem : data := mk_data [("two-sum", two_sum)] [].

(** 2024-01-01 10:00:00 and 2024-01-01 10:20:00 *)
Definition t_start : datetime := make 2024 1 1 10 0 0.
Definition t_end : datetime := make 2024 1 1 10 20 0.

(** The session is logged in the second in which it ends. *)
Definition prompt_log_world : world :=
  example_world one_problem [] [t_end].

(** A practice session without filters: the problem is offered at 09:59,
    started at 10:00:00, ended at 10:20:00, and the result and the notes
    are typed five seconds later. *)
Definition late_log_world : world :=
  example_world one_problem ["n"; ""; "solved"; ""]
    [make 2024 1 1 9 59 0; t_start; t_end; t_end + 5 * us_per_second].

(** The clock is set back by ten seconds during a session. *)
Definition clock_set_back_world : world :=
  example_world one_problem ["n"; ""; "unsolved"; ""]
    [make 2024 1 1 9 59 0; make 2024 1 1 10 0 10; make 2024 1 1 10 0 0;
     make 2024 1 1 10 0 1].

(** A problem is added, solved in a first session and not solved in a
    second one, the next day. *)
Definition solved_then_unsolved_world : world :=
  example_world empty_data
    ["Two Sum"; "two-sum"; ""; "easy"; "array, hash-table";
     "n"; ""; "solved"; "";
     "n"; ""; "unsolved"; "forgot the hash map"]
    [make 2024 1 1 9 59 0; t_start; t_end; t_end + 5 * us_per_second;
     make 2024 1 5 9 59 0; make 2024 1 5 10 0 0; make 2024 1 5 10 30 0;
     make 2024 1 5 10 30 5].

Definition problem_added : world :=
  world_after add_problem solved_then_unsolved_world.

Definition solved_once : world :=
  world_after start_practice_session problem_added.

Definition solved_then_unsolved : world :=
  world_after start_practice_session solved_once.

(** The topic filter "Array" is typed, and nothing else. *)
Definition topic_array_world : world :=
  example_world two_problems ["y"; ""; "Array"; "n"] [t_start].

(** A catalog with a problem that was never practised, one that is due
    and one that is not, at 10:00:00. *)
Definition due_catalog : data :=
  mk_data
    [("two-sum", two_sum);
     ("3sum",
      mk_problem "3Sum" "3sum" "https://leetcode.com/problems/3sum/"
        "medium" ["arrays"] 1 (Some "partial")
        (Some "2023-12-31 09:00:00") (Some "2024-01-01 09:00:00"));
     ("lru-cache",
      mk_problem "LRU Cache" "lru-cache"
        "https://leetcode.com/problems/lru-cache/"
        "hard" ["design"] 1 (Some "solved")
        (Some "2024-01-01 09:30:00") (Some "2024-01-02 09:30:00"))]
    [].

Definition due_world : world := example_world due_catalog [] [t_start].

(** ** Definitions for the further properties *)

(** The names that [normalize_difficulty] returns and the results that
    [start_practice_session] accepts. *)
Definition difficulties : list string := ["easy"; "medium"; "hard"].
Definition statuses : list string := ["solved"; "partial"; "unsolved"].

(** The record that [add_problem] stores. *)
Definition fresh_problem (title slug url difficulty : string)
    (topics : list string) : problem :=
  mk_problem title slug url difficulty topics 0 None None None.

(** The data once [add_problem] has stored the record [p] under [slug]. *)
Definition added (d : data) (slug : string) (p : problem) : data :=
  mk_data (set slug p (problems d)) (sessions d).

(** The data once a session on the problem [p] bound to [pid] is logged. *)
Definition logged (d : data) (pid : string) (p : problem)
    (start_time end_time logged_at : datetime) (status notes : string) : data :=
  mk_data
    (set pid (logged_problem p status end_time logged_at) (problems d))
    (sessions d ++ [logged_session pid start_time end_time status notes])%list.

(** A list that begins with another one. *)
Definition is_prefix {A} (l l' : list A) : Prop := exists t, l' = (l ++ t)%list.

(** Data that keeps the keys and the sessions of other data, in order, and
    may have more of both. *)
Definition extends (d d' : data) : Prop :=
  is_prefix (keys (problems d)) (keys (problems d'))
  /\ is_prefix (sessions d) (sessions d').

(** Every reading of the clock lies in the years that [DATE_FORMAT] writes
    with four digits, three days before their end at the latest. *)
Definition clock_in_range (w : world) : Prop :=
  forall k, min_fmt <= w_clock w k /\ w_clock w k + days 3 < max_fmt.

(** The sessions of the log on one problem, and the latest session of a
    log. *)
Definition sessions_of (pid : string) (log : list session) : list session :=
  filter (fun s => String.eqb (s_problem_id s) pid) log.

Definition latest (log : list session) : option session :=
  match rev log with
  | [] => None
  | s :: _ => Some s
  end.

(** The number of problems of a difficulty. *)
Definition count_difficulty (difficulty : string) (d : data) : Z :=
  Z.of_nat
    (List.length
       (filter (fun p => String.eqb (p_difficulty p) difficulty)
          (values (problems d)))).

(** A line that [strip] empties. *)
Definition blank (l : string) : Prop := strip l = EmptyString.

(** The spellings that [normalize_difficulty] accepts, once in lower case
    and stripped, each with the name that it returns. *)
Definition difficulty_spellings : list (string * string) :=
  [("e", "easy"); ("easy", "easy");
   ("m", "medium"); ("medium", "medium"); ("med", "medium");
   ("h", "hard"); ("hard", "hard")].

(** Two blank lines are typed before a title. *)
Definition blank_lines_world : world :=
  example_world empty_data [""; "   "; "  Two Sum "; "two-sum"] [].


(** Two more example worlds: a second problem is typed in, and the input
    ends after the title. *)
Definition add_three_sum_world : world :=
  example_world one_problem
    ["3Sum"; "  "; "3sum"; ""; "hardish"; "M"; " Array , two-pointers,, "] [].

Definition add_cut_short_world : world :=
  example_world one_problem ["3Sum"] [].

(** The catalog [due_catalog] a day later, at 2024-01-02 10:00:00. *)
Definition due_world_next_day : world :=
  example_world due_catalog [] [make 2024 1 2 10 0 0].

(** The input ends while the result of the session is awaited. *)
Definition session_cut_short_world : world :=
  example_world one_problem ["n"; ""; "done"]
    [make 2024 1 1 9 59 0; t_start; t_end].

(** A computation after which the data extends the data before. *)
Definition grows {A} (m : M A) : Prop :=
  forall w, extends (w_data w) (data_after m w).

(** The menu is used to add a problem, to look at the statistics, by
    mistake, and left. *)
Definition menu_world : world :=
  example_world empty_data
    ["1"; "Two Sum"; "two-sum"; ""; "easy"; "array"; "4"; "9"; " 5 "] [].

(** A world whose clock is in range and whose stored timestamps parse. *)
Definition sane (w : world) : Prop :=
  clock_in_range w /\ timestamps_parse (w_data w).

(** A computation that maintains a property of the world. *)
Definition maintains {A} (P : world -> Prop) (m : M A) : Prop :=
  forall w, P w -> P (world_after m w).

(** A problem is added and practised twice through the menu, with filters
    the second time, while the clock stands at 10:00:00. *)
Definition practice_menu_world : world :=
  example_world empty_data
    ["1"; "Two Sum"; "two-sum"; ""; "easy"; "array";
     "3"; "n"; ""; "solved"; "";
     "3"; "y"; "easy"; "array"; "y"; "5"]
    [t_start].


(** * Proofs *)

(** ** Strings *)

Section StringFacts.


Lemma is_space_lower_char c : is_space (lower_char c) = is_space c.
Proof. destruct c as [[] [] [] [] [] [] [] []]; reflexivity. Qed.


Lemma lower_lstrip s : lower (lstrip s) = lstrip (lower s).
Proof.
  induction s as [| c r IH]; cbn [lower lstrip]; [reflexivity |].
  rewrite is_space_lower_char. destruct (is_space c); [exact IH | reflexivity].
Qed.

Lemma lower_rstrip s : lower (rstrip s) = rstrip (lower s).
Proof.
  induction s as [| c r IH]; cbn [lower rstrip]; [reflexivity |].
  rewrite <- IH, is_space_lower_char.
  destruct (rstrip r) as [| c' r']; cbn [lower].
  - destruct (is_space c); reflexivity.
  - reflexivity.
Qed.

Lemma lower_strip s : lower (strip s) = strip (lower s).
Proof. unfold strip. now rewrite lower_rstrip, lower_lstrip. Qed.

Lemma rstrip_cons c r :
  rstrip (String c r)
  = match rstrip r with
    | EmptyString => if is_space c then EmptyString else String c EmptyString
    | r' => String c r'
    end.
Proof. reflexivity. Qed.

Lemma rstrip_idempotent s : rstrip (rstrip s) = rstrip s.
Proof.
  induction s as [| c r IH]; [reflexivity |].
  rewrite rstrip_cons.
  destruct (rstrip r) as [| c' r'] eqn:E.
  - destruct (is_space c) eqn:Ec; [reflexivity |].
    rewrite rstrip_cons. cbn [rstrip]. now rewrite Ec.
  - rewrite rstrip_cons, IH. reflexivity.
Qed.

(** What [lstrip] returns is empty or begins with a character that is not
    white space. *)
Lemma lstrip_head s :
  lstrip s = EmptyString
  \/ exists c r, lstrip s = String c r /\ is_space c = false.
Proof.
  induction s as [| c r IH]; cbn [lstrip]; [now left |].
  destruct (is_space c) eqn:E; [exact IH |].
  right. now exists c, r.
Qed.

Lemma rstrip_head c r :
  is_space c = false -> exists r', rstrip (String c r) = String c r'.
Proof.
  intros E. cbn [rstrip]. destruct (rstrip r) as [| c' r'].
  - rewrite E. now exists EmptyString.
  - now exists (String c' r').
Qed.

Lemma strip_idempotent s : strip (strip s) = strip s.
Proof.
  unfold strip at 2 3.
  destruct (lstrip_head s) as [E | (c & r & E & Hc)]; rewrite E.
  - reflexivity.
  - destruct (rstrip_head c r Hc) as (r' & E'). unfold strip.
    rewrite E'. cbn [lstrip]. rewrite Hc, <- E'. apply rstrip_idempotent.
Qed.

Lemma truthy_true s : truthy s = true <-> s <> EmptyString.
Proof. destruct s; cbn; split; congruence. Qed.

Lemma truthy_false s : truthy s = false <-> s = EmptyString.
Proof. destruct s; cbn; split; congruence. Qed.

End StringFacts.

(** ** The calendar *)

Ltac month_simpl :=
  cbv [_DAYS_BEFORE_MONTH _DAYS_IN_MONTH Z.eqb Z.ltb Z.compare Pos.eqb
       Pos.compare Pos.compare_cont andb] in *.

Section Calendar.

Lemma days_before_year_digits a b c e :
  0 <= b <= 3 -> 0 <= c <= 24 -> 0 <= e <= 3 ->
  _days_before_year (400 * a + 100 * b + 4 * c + e + 1)
  = 146097 * a + 36524 * b + 1461 * c + 365 * e.
Proof.
  intros Hb Hc He. unfold _days_before_year. cbv zeta.
  replace (400 * a + 100 * b + 4 * c + e + 1 - 1)
    with (400 * a + 100 * b + 4 * c + e) by lia.
  assert (H4 : (400 * a + 100 * b + 4 * c + e) / 4 = 100 * a + 25 * b + c).
  { symmetry. apply (Z.div_unique _ _ _ e); lia. }
  assert (H100 : (400 * a + 100 * b + 4 * c + e) / 100 = 4 * a + b).
  { symmetry. apply (Z.div_unique _ _ _ (4 * c + e)); lia. }
  assert (H400 : (400 * a + 100 * b + 4 * c + e) / 400 = a).
  { symmetry. apply (Z.div_unique _ _ _ (100 * b + 4 * c + e)); lia. }
  rewrite H4, H100, H400. lia.
Qed.

Lemma is_leap_digits a b c e :
  0 <= b <= 3 -> 0 <= c <= 24 -> 0 <= e <= 3 ->
  _is_leap (400 * a + 100 * b + 4 * c + e + 1)
  = (e =? 3) && (negb (c =? 24) || (b =? 3)).
Proof.
  intros Hb Hc He. unfold _is_leap.
  set (y := 400 * a + 100 * b + 4 * c + e + 1).
  assert (M4 : y mod 4 = (e + 1) mod 4).
  { unfold y. replace (400 * a + 100 * b + 4 * c + e + 1)
      with ((e + 1) + (100 * a + 25 * b + c) * 4) by lia.
    apply Z.mod_add. lia. }
  assert (M100 : y mod 100 = (4 * c + e + 1) mod 100).
  { unfold y. replace (400 * a + 100 * b + 4 * c + e + 1)
      with ((4 * c + e + 1) + (4 * a + b) * 100) by lia.
    apply Z.mod_add. lia. }
  assert (M400 : y mod 400 = (100 * b + 4 * c + e + 1) mod 400).
  { unfold y. replace (400 * a + 100 * b + 4 * c + e + 1)
      with ((100 * b + 4 * c + e + 1) + a * 400) by lia.
    apply Z.mod_add. lia. }
  rewrite M4, M100, M400.
  destruct (Z.eqb_spec e 3) as [-> | Ne].
  - replace ((3 + 1) mod 4) with 0 by reflexivity. cbn [Z.eqb andb].
    destruct (Z.eqb_spec c 24) as [-> | Nc].
    + replace ((4 * 24 + 3 + 1) mod 100) with 0 by reflexivity.
      cbn [Z.eqb negb orb].
      destruct (Z.eqb_spec b 3) as [-> | Nb]; [reflexivity |].
      assert (H : (100 * b + 4 * 24 + 3 + 1) mod 400 = 100 * b + 100).
      { rewrite Z.mod_small; lia. }
      rewrite H. destruct (Z.eqb_spec (100 * b + 100) 0); [lia | reflexivity].
    + assert (H : (4 * c + 3 + 1) mod 100 = 4 * c + 4).
      { rewrite Z.mod_small; lia. }
      rewrite H. destruct (Z.eqb_spec (4 * c + 4) 0); [lia | reflexivity].
  - assert (H : (e + 1) mod 4 = e + 1) by (apply Z.mod_small; lia).
    rewrite H. destruct (Z.eqb_spec (e + 1) 0); [lia | reflexivity].
Qed.

Lemma month_day_year year n leapyear :
  month_day year n leapyear
  = (year, snd (fst (month_day 0 n leapyear)), snd (month_day 0 n leapyear)).
Proof. unfold month_day. cbv zeta. destruct (Z.ltb n _); reflexivity. Qed.

Lemma month_day_checked :
  forallb (fun k => month_day_ok false (Z.of_nat k)) (seq 0%nat 365%nat)
  && forallb (fun k => month_day_ok true (Z.of_nat k)) (seq 0%nat 366%nat) = true.
Proof. vm_compute. reflexivity. Qed.

Lemma month_day_ok_true (leapyear : bool) (n : Z) :
  0 <= n < 365 + (if leapyear then 1 else 0) ->
  month_day_ok leapyear n = true.
Proof.
  intros Hn. pose proof month_day_checked as H.
  apply andb_true_iff in H as [Hf Ht]. rewrite forallb_forall in Hf, Ht.
  rewrite <- (Z2Nat.id n) by lia.
  destruct leapyear; [apply Ht | apply Hf]; apply in_seq; lia.
Qed.

Lemma ord2ymd_unfold n :
  _ord2ymd n =
  let q400 := (n - 1) / 146097 in
  let r0 := (n - 1) mod 146097 in
  let q100 := r0 / 36524 in
  let r1 := r0 mod 36524 in
  let q4 := r1 / 1461 in
  let r2 := r1 mod 1461 in
  let q1 := r2 / 365 in
  let r3 := r2 mod 365 in
  let year := q400 * 400 + 1 + q100 * 100 + q4 * 4 + q1 in
  if (q1 =? 4) || (q100 =? 4) then (year - 1, 12, 31)
  else month_day year r3 ((q1 =? 3) && (negb (q4 =? 24) || (q100 =? 3))).
Proof. reflexivity. Qed.

(** [_ord2ymd] returns a valid date, and [_ymd2ord] maps it back. *)
Lemma ord2ymd_spec n :
  let '(y, m, d) := _ord2ymd n in
  _ymd2ord y m d = n /\ 1 <= m <= 12 /\ 1 <= d <= _days_in_month y m.
Proof.
  rewrite ord2ymd_unfold. cbv zeta.
  pose proof (Z.div_mod (n - 1) 146097 ltac:(lia)) as E0.
  pose proof (Z.mod_pos_bound (n - 1) 146097 ltac:(lia)) as B0.
  set (q400 := (n - 1) / 146097) in *.
  set (r0 := (n - 1) mod 146097) in *. clearbody q400 r0.
  pose proof (Z.div_mod r0 36524 ltac:(lia)) as E1.
  pose proof (Z.mod_pos_bound r0 36524 ltac:(lia)) as B1.
  set (q100 := r0 / 36524) in *.
  set (r1 := r0 mod 36524) in *. clearbody q100 r1.
  pose proof (Z.div_mod r1 1461 ltac:(lia)) as E2.
  pose proof (Z.mod_pos_bound r1 1461 ltac:(lia)) as B2.
  set (q4 := r1 / 1461) in *.
  set (r2 := r1 mod 1461) in *. clearbody q4 r2.
  pose proof (Z.div_mod r2 365 ltac:(lia)) as E3.
  pose proof (Z.mod_pos_bound r2 365 ltac:(lia)) as B3.
  set (q1 := r2 / 365) in *.
  set (r3 := r2 mod 365) in *. clearbody q1 r3.
  assert (Hq100 : 0 <= q100 <= 4) by lia.
  assert (Hq4 : 0 <= q4 <= 24) by lia.
  assert (Hq1 : 0 <= q1 <= 4) by lia.
  destruct ((q1 =? 4) || (q100 =? 4)) eqn:Last.
  - (* the last day of a leap year *)
    assert (Hy : exists b c, 0 <= b <= 3 /\ 0 <= c <= 24
               /\ (c = 24 -> b = 3)
               /\ q400 * 400 + 1 + q100 * 100 + q4 * 4 + q1 - 1
                  = 400 * q400 + 100 * b + 4 * c + 3 + 1
               /\ n = 146097 * q400 + 36524 * b + 1461 * c + 1461).
    { apply orb_true_iff in Last as [H | H]; apply Z.eqb_eq in H.
      - exists q100, q4. lia.
      - exists 3, 24. lia. }
    destruct Hy as (b & c & Hb & Hc & Hcb & -> & ->).
    unfold _ymd2ord, _days_before_month, _days_in_month.
    rewrite days_before_year_digits, is_leap_digits by lia.
    cbn [Z.eqb Pos.eqb andb Z.ltb Z.compare Pos.compare Pos.compare_cont
         _DAYS_BEFORE_MONTH _DAYS_IN_MONTH].
    assert (L : negb (c =? 24) || (b =? 3) = true).
    { destruct (Z.eqb_spec c 24); [| reflexivity].
      rewrite (proj2 (Z.eqb_eq b 3)) by auto. reflexivity. }
    rewrite L. lia.
  - apply orb_false_iff in Last as [H1 H100].
    apply Z.eqb_neq in H1, H100.
    rewrite month_day_year.
    pose proof (month_day_ok_true
                  ((q1 =? 3) && (negb (q4 =? 24) || (q100 =? 3))) r3) as Ok.
    unfold month_day_ok in Ok.
    destruct (month_day 0 r3 _) as [[y0 m] d] eqn:MD. cbn [fst snd].
    assert (Hr : 0 <= r3 < 365 + (if (q1 =? 3) && (negb (q4 =? 24) || (q100 =? 3))
                                  then 1 else 0)).
    { destruct (_ && _); lia. }
    specialize (Ok Hr).
    repeat (apply andb_true_iff in Ok as [Ok ?]).
    unfold _ymd2ord, _days_before_month, _days_in_month.
    replace (q400 * 400 + 1 + q100 * 100 + q4 * 4 + q1)
      with (400 * q400 + 100 * q100 + 4 * q4 + q1 + 1) by lia.
    rewrite days_before_year_digits, is_leap_digits by lia.
    repeat match goal with
           | H : (_ <=? _) = true |- _ => apply Z.leb_le in H
           | H : (_ =? _) = true |- _ => apply Z.eqb_eq in H
           end.
    lia.
Qed.


Lemma digit_val_char d : 0 <= d <= 9 -> digit_val (digit_char d) = Some d.
Proof.
  intros H.
  assert (C : d = 0 \/ d = 1 \/ d = 2 \/ d = 3 \/ d = 4 \/ d = 5 \/ d = 6
              \/ d = 7 \/ d = 8 \/ d = 9) by lia.
  repeat (destruct C as [-> | C]; [reflexivity |]). subst. reflexivity.
Qed.

Lemma digits_pad2 n k : 0 <= n < 100 -> digits 2 0 (pad2 n k) = Some (n, k).
Proof.
  intros H. unfold pad2. cbn [digits].
  rewrite !digit_val_char.
  - f_equal. f_equal. pose proof (Z.div_mod n 10 ltac:(lia)). lia.
  - pose proof (Z.mod_pos_bound n 10 ltac:(lia)). lia.
  - split; [apply Z.div_pos; lia | apply Z.lt_succ_r, Z.div_lt_upper_bound; lia].
Qed.

Lemma digits_pad4 n k :
  0 <= n < 10000 -> digits 4 0 (pad4 n k) = Some (n, k).
Proof.
  intros H. unfold pad4. cbn [digits].
  pose proof (Z.div_mod n 10 ltac:(lia)) as E1.
  pose proof (Z.mod_pos_bound n 10 ltac:(lia)) as B1.
  pose proof (Z.div_mod (n / 10) 10 ltac:(lia)) as E2.
  pose proof (Z.mod_pos_bound (n / 10) 10 ltac:(lia)) as B2.
  pose proof (Z.div_mod (n / 100) 10 ltac:(lia)) as E3.
  pose proof (Z.mod_pos_bound (n / 100) 10 ltac:(lia)) as B3.
  assert (D2 : n / 10 / 10 = n / 100) by (rewrite Z.div_div by lia; reflexivity).
  assert (D3 : n / 100 / 10 = n / 1000) by (rewrite Z.div_div by lia; reflexivity).
  rewrite D2 in E2. rewrite D3 in E3.
  assert (B4 : 0 <= n / 1000 <= 9).
  { split; [apply Z.div_pos; lia
           | apply Z.lt_succ_r, Z.div_lt_upper_bound; lia]. }
  rewrite !digit_val_char by lia.
  f_equal. f_equal. lia.
Qed.

Lemma days_before_year_succ y :
  _days_before_year (y + 1)
  = _days_before_year y + 365 + (if _is_leap y then 1 else 0).
Proof.
  pose proof (Z.div_mod (y - 1) 400 ltac:(lia)) as E.
  pose proof (Z.mod_pos_bound (y - 1) 400 ltac:(lia)) as B.
  set (a := (y - 1) / 400) in *. set (r := (y - 1) mod 400) in *.
  clearbody a r.
  pose proof (Z.div_mod r 100 ltac:(lia)) as E1.
  pose proof (Z.mod_pos_bound r 100 ltac:(lia)) as B1.
  set (b := r / 100) in *. set (r1 := r mod 100) in *. clearbody b r1.
  pose proof (Z.div_mod r1 4 ltac:(lia)) as E2.
  pose proof (Z.mod_pos_bound r1 4 ltac:(lia)) as B2.
  set (c := r1 / 4) in *. set (e := r1 mod 4) in *. clearbody c e.
  assert (Hy : y = 400 * a + 100 * b + 4 * c + e + 1) by lia.
  rewrite Hy at 2 3. rewrite days_before_year_digits, is_leap_digits by lia.
  destruct (Z.eqb_spec e 3) as [He | He].
  - destruct (Z.eqb_spec c 24) as [Hc | Hc].
    + destruct (Z.eqb_spec b 3) as [Hb | Hb]; cbn [negb orb andb].
      * replace (y + 1) with (400 * (a + 1) + 100 * 0 + 4 * 0 + 0 + 1) by lia.
        rewrite days_before_year_digits by lia. lia.
      * replace (y + 1) with (400 * a + 100 * (b + 1) + 4 * 0 + 0 + 1) by lia.
        rewrite days_before_year_digits by lia. lia.
    + cbn [negb orb andb].
      replace (y + 1) with (400 * a + 100 * b + 4 * (c + 1) + 0 + 1) by lia.
      rewrite days_before_year_digits by lia. lia.
  - cbn [andb].
    replace (y + 1) with (400 * a + 100 * b + 4 * c + (e + 1) + 1) by lia.
    rewrite days_before_year_digits by lia. lia.
Qed.

Lemma days_before_year_mono a b :
  a <= b -> _days_before_year a <= _days_before_year b.
Proof.
  intros H. replace b with (a + Z.of_nat (Z.to_nat (b - a))) by lia.
  induction (Z.to_nat (b - a)) as [|k IH].
  - rewrite Z.add_0_r. lia.
  - rewrite Nat2Z.inj_succ.
    replace (a + Z.succ (Z.of_nat k)) with (a + Z.of_nat k + 1) by lia.
    rewrite days_before_year_succ. destruct (_is_leap _); lia.
Qed.

Lemma day_of_year_bound y m d :
  1 <= m <= 12 -> 1 <= d <= _days_in_month y m ->
  1 <= _days_before_month y m + d <= 365 + (if _is_leap y then 1 else 0).
Proof.
  intros Hm Hd. unfold _days_before_month, _days_in_month in *.
  assert (C : m = 1 \/ m = 2 \/ m = 3 \/ m = 4 \/ m = 5 \/ m = 6 \/ m = 7
              \/ m = 8 \/ m = 9 \/ m = 10 \/ m = 11 \/ m = 12) by lia.
  repeat (destruct C as [-> | C];
          [destruct (_is_leap y); month_simpl; lia |]).
  subst. destruct (_is_leap y); month_simpl; lia.
Qed.

(** The year of an instant that [DATE_FORMAT] writes with four digits. *)
Lemma year_four_digits t :
  min_fmt <= t < max_fmt ->
  1000 <= fst (fst (_ord2ymd (toordinal t))) <= 9999.
Proof.
  intros [Hlo Hhi].
  pose proof (ord2ymd_spec (toordinal t)) as S.
  destruct (_ord2ymd (toordinal t)) as [[y m] d]. cbn [fst].
  destruct S as (E & Hm & Hd).
  pose proof (day_of_year_bound y m d Hm Hd) as B.
  unfold _ymd2ord in E.
  assert (Lo : _days_before_year 1000 + 1 <= toordinal t).
  { unfold toordinal. apply Z.add_le_mono_r.
    apply Z.div_le_lower_bound; [reflexivity |].
    etransitivity; [| exact Hlo]. vm_compute. discriminate. }
  assert (Hi : toordinal t <= _days_before_year 10000).
  { unfold toordinal.
    assert (t / us_per_day < _days_before_year 10000); [| lia].
    apply Z.div_lt_upper_bound; [reflexivity |].
    eapply Z.lt_le_trans; [exact Hhi |]. vm_compute. discriminate. }
  split.
  - destruct (Z_lt_ge_dec y 1000) as [L |]; [| lia].
    pose proof (days_before_year_mono (y + 1) 1000 ltac:(lia)).
    rewrite days_before_year_succ in H. lia.
  - destruct (Z_lt_ge_dec 9999 y) as [L |]; [| lia].
    pose proof (days_before_year_mono 10000 y ltac:(lia)). lia.
Qed.

(** Reading back a timestamp written with [DATE_FORMAT] gives the instant
    without its microseconds. *)
Lemma strptime_strftime t :
  min_fmt <= t < max_fmt -> strptime (strftime t) = Some (whole_second t).
Proof.
  intros Ht. pose proof (year_four_digits t Ht) as Hy.
  pose proof (ord2ymd_spec (toordinal t)) as S.
  unfold strftime. destruct (_ord2ymd (toordinal t)) as [[y m] d].
  cbn [fst] in Hy. destruct S as (E & Hm & Hd).
  assert (Dm : _days_in_month y m <= 31).
  { unfold _days_in_month.
    assert (C : m = 1 \/ m = 2 \/ m = 3 \/ m = 4 \/ m = 5 \/ m = 6 \/ m = 7
                \/ m = 8 \/ m = 9 \/ m = 10 \/ m = 11 \/ m = 12) by lia.
    repeat (destruct C as [-> | C];
            [destruct (_is_leap y); month_simpl; lia |]).
    subst. destruct (_is_leap y); month_simpl; lia. }
  pose proof (Z.mod_pos_bound t us_per_day ltac:(reflexivity)) as Bt.
  assert (Bs : 0 <= second_of_day t < 86400).
  { unfold second_of_day. split.
    - apply Z.div_pos; [lia | reflexivity].
    - apply Z.div_lt_upper_bound; [reflexivity |].
      change (us_per_second * 86400) with us_per_day. lia. }
  set (s := second_of_day t) in *.
  pose proof (Z.div_mod s 3600 ltac:(lia)) as E1.
  pose proof (Z.mod_pos_bound s 3600 ltac:(lia)) as B1.
  pose proof (Z.div_mod (s mod 3600) 60 ltac:(lia)) as E2.
  pose proof (Z.mod_pos_bound (s mod 3600) 60 ltac:(lia)) as B2.
  assert (M : s mod 60 = s mod 3600 mod 60).
  { rewrite E1 at 1. replace (3600 * (s / 3600) + s mod 3600)
      with (s mod 3600 + (60 * (s / 3600)) * 60) by lia.
    apply Z.mod_add. lia. }
  set (hh := s / 3600) in *. set (r := s mod 3600) in *.
  set (mm := r / 60) in *. rewrite M. set (ss := r mod 60) in *.
  assert (Bh : 0 <= hh <= 23) by lia.
  assert (Bm : 0 <= mm <= 59) by lia.
  unfold strptime.
  rewrite digits_pad4 by lia. cbn [expect Ascii.eqb Bool.eqb].
  rewrite digits_pad2 by lia. cbn [expect Ascii.eqb Bool.eqb].
  rewrite digits_pad2 by lia. cbn [expect Ascii.eqb Bool.eqb].
  rewrite digits_pad2 by lia. cbn [expect Ascii.eqb Bool.eqb].
  rewrite digits_pad2 by lia. cbn [expect Ascii.eqb Bool.eqb].
  rewrite digits_pad2 by lia.
  replace ((1 <=? y) && (1 <=? m) && (m <=? 12) && (1 <=? d)
           && (d <=? _days_in_month y m) && (hh <=? 23) && (mm <=? 59)
           && (ss <=? 59)) with true.
  2:{ symmetry. repeat (apply andb_true_iff; split); apply Z.leb_le; lia. }
  f_equal. unfold make, whole_second. rewrite E. unfold toordinal.
  f_equal.
  pose proof (Z.div_mod t us_per_day ltac:(discriminate)) as Et.
  pose proof (Z.div_mod (t mod us_per_day) us_per_second ltac:(discriminate))
    as Eu.
  pose proof (Z.mod_pos_bound (t mod us_per_day) us_per_second
                ltac:(reflexivity)) as Bu.
  fold s in Eu. unfold second_of_day in s.
  apply (Z.div_unique _ _ _ ((t mod us_per_day) mod us_per_second)).
  - lia.
  - unfold us_per_day in *. unfold us_per_second in *. lia.
Qed.

End Calendar.

(** ** Dictionaries *)

Section DictFacts.
Context {V : Type}.
Implicit Types (d : dict V) (k : string) (v : V).

Lemma get_set_same k v d : get k (set k v d) = Some v.
Proof.
  induction d as [| [k' v'] r IH]; cbn [set get].
  - now rewrite String.eqb_refl.
  - destruct (String.eqb k k') eqn:E; cbn [get]; rewrite E; auto.
Qed.

Lemma get_set_other k k' v d : k' <> k -> get k' (set k v d) = get k' d.
Proof.
  intros N. induction d as [| [k0 v0] r IH]; cbn [set get].
  - destruct (String.eqb_spec k' k); [contradiction | reflexivity].
  - destruct (String.eqb_spec k k0) as [-> | Nk]; cbn [get].
    + destruct (String.eqb_spec k' k0); [contradiction | reflexivity].
    + destruct (String.eqb k' k0); auto.
Qed.

Lemma set_set k v1 v2 d : set k v2 (set k v1 d) = set k v2 d.
Proof.
  induction d as [| [k' v'] r IH]; cbn [set].
  - now rewrite String.eqb_refl.
  - destruct (String.eqb k k') eqn:E; cbn [set]; rewrite E; congruence.
Qed.

Lemma in_set k v k' v' d :
  In (k', v') (set k v d) -> In (k', v') d \/ (k' = k /\ v' = v).
Proof.
  induction d as [| [k0 v0] r IH]; cbn [set].
  - intros [H | []]. inversion H. auto.
  - destruct (String.eqb_spec k k0) as [-> | Nk].
    + intros [H | H]; [inversion H; auto | left; right; exact H].
    + intros [H | H]; [left; left; exact H |].
      destruct (IH H) as [? | ?]; [left; right |]; auto.
Qed.

Lemma in_set_other k v k' v' d :
  k' <> k -> (In (k', v') (set k v d) <-> In (k', v') d).
Proof.
  intros N. induction d as [| [k0 v0] r IH]; cbn [set].
  - split; [intros [H | []]; inversion H; congruence | intros []].
  - destruct (String.eqb_spec k k0) as [-> | Nk]; cbn [In].
    + split; (intros [H | H]; [inversion H; congruence | right; exact H]).
    + rewrite IH. reflexivity.
Qed.

Lemma keys_set_present k v v0 d :
  get k d = Some v0 -> keys (set k v d) = keys d.
Proof.
  unfold keys. induction d as [| [k' v'] r IH]; cbn [set get map fst].
  - discriminate.
  - destruct (String.eqb k k'); cbn [map fst]; intros H;
      [reflexivity | now rewrite IH].
Qed.

Lemma get_in k v d : get k d = Some v -> In (k, v) d.
Proof.
  induction d as [| [k' v'] r IH]; cbn [get]; [discriminate |].
  destruct (String.eqb_spec k k') as [-> | N]; intros H.
  - inversion H. now left.
  - right. auto.
Qed.

End DictFacts.

(** ** The scheduler and the session recorder, step by step *)

Lemma schedule_next_review_run status difficulty w :
  schedule_next_review status difficulty w
  = (Ok (strftime (next_reading w + review_delta status difficulty)), tick w).
Proof. reflexivity. Qed.

Lemma review_delta_table status difficulty n :
  In (status, difficulty, n) review_table ->
  review_delta (Some status) difficulty = days n.
Proof.
  unfold review_table. cbn [In]. intros H.
  repeat (destruct H as [H | H]; [inversion H; reflexivity |]).
  destruct H.
Qed.

Lemma record_session_ok w pid p start_time end_time status notes :
  get pid (problems (w_data w)) = Some p ->
  record_session pid start_time end_time status notes w
  = (Ok (logged_session pid start_time end_time status notes),
     set_data
       (mk_data
          (set pid (logged_problem p status end_time (next_reading w))
             (problems (w_data w)))
          (sessions (w_data w)
           ++ [logged_session pid start_time end_time status notes])%list)
       (tick w)).
Proof.
  intros H. unfold record_session, bind, get_data. cbn [fst snd].
  rewrite H. unfold put_data, save_data, ret, set_data. cbn.
  rewrite set_set. reflexivity.
Qed.

Lemma record_session_unknown w pid start_time end_time status notes :
  get pid (problems (w_data w)) = None ->
  record_session pid start_time end_time status notes w
  = (Raise (KeyError pid), w).
Proof.
  intros H. unfold record_session, bind, get_data. rewrite H. reflexivity.
Qed.

(** ** Computations that only read the data *)

Section ReadsOnly.

Lemma reads_only_ret {A} (a : A) : reads_only (ret a).
Proof. intros w. reflexivity. Qed.

Lemma reads_only_raise {A} e : reads_only (@raise A e).
Proof. intros w. reflexivity. Qed.

Lemma reads_only_lift {A} (r : completion A) : reads_only (lift r).
Proof. intros w. reflexivity. Qed.

Lemma reads_only_get_data : reads_only get_data.
Proof. intros w. reflexivity. Qed.

Lemma reads_only_input : reads_only input.
Proof.
  intros w. unfold data_after, world_after, input.
  destruct (w_stdin w); reflexivity.
Qed.

Lemma reads_only_datetime_now : reads_only datetime_now.
Proof. intros w. reflexivity. Qed.

Lemma reads_only_random_choice l : reads_only (random_choice l).
Proof.
  intros w. unfold data_after, world_after, random_choice.
  destruct l; reflexivity.
Qed.

Lemma reads_only_input_until {A} (accept : string -> option A) :
  reads_only (input_until accept).
Proof.
  intros w. unfold data_after, world_after, input_until.
  destruct (input_until_from accept (w_stdin w)). reflexivity.
Qed.

Lemma reads_only_bind {A B} (m : M A) (k : A -> M B) :
  reads_only m -> (forall a, reads_only (k a)) -> reads_only (bind m k).
Proof.
  intros Hm Hk w. specialize (Hm w).
  unfold data_after, world_after, bind in *.
  destruct (m w) as [[a | e] w1]; cbn [snd] in *.
  - rewrite <- Hm. apply Hk.
  - exact Hm.
Qed.

Lemma preserves_reads_only {A} P (m : M A) : reads_only m -> preserves P m.
Proof. intros H w Hw. now rewrite H. Qed.

Lemma preserves_bind {A B} P (m : M A) (k : A -> M B) :
  preserves P m -> (forall a, preserves P (k a)) -> preserves P (bind m k).
Proof.
  intros Hm Hk w Hw. specialize (Hm w Hw).
  unfold data_after, world_after, bind in *.
  destruct (m w) as [[a | e] w1]; cbn [snd] in *.
  - apply Hk, Hm.
  - exact Hm.
Qed.

End ReadsOnly.

Ltac reads_only :=
  repeat first
    [ apply reads_only_bind; [| intros ?]
    | apply reads_only_ret
    | apply reads_only_raise
    | apply reads_only_lift
    | apply reads_only_get_data
    | apply reads_only_input
    | apply reads_only_datetime_now
    | apply reads_only_random_choice
    | apply reads_only_input_until ].

Lemma reads_only_input_non_empty : reads_only input_non_empty.
Proof. apply reads_only_input_until. Qed.

Lemma reads_only_filter_problems diff_filter topic_filter only_due :
  reads_only (filter_problems diff_filter topic_filter only_due).
Proof. unfold filter_problems. reads_only. Qed.

Lemma reads_only_read_filters : reads_only read_filters.
Proof.
  unfold read_filters. apply reads_only_bind; [apply reads_only_input |].
  intros answer. destruct (String.eqb _ "y"); reads_only.
Qed.

Lemma reads_only_select_candidates : reads_only select_candidates.
Proof.
  unfold select_candidates.
  apply reads_only_bind; [apply reads_only_read_filters |].
  intros [[diff_filter topic_filter] only_due].
  apply reads_only_filter_problems.
Qed.

Lemma reads_only_choose_problem : reads_only choose_problem.
Proof.
  unfold choose_problem. apply reads_only_bind; [apply reads_only_get_data |].
  intros d. destruct (problems d); [apply reads_only_ret |].
  apply reads_only_bind; [apply reads_only_select_candidates |].
  intros [| c cs]; [apply reads_only_ret |].
  apply reads_only_bind; [apply reads_only_random_choice |]. intros pid.
  apply reads_only_bind; [apply reads_only_get_data |]. intros d'.
  destruct (get pid (problems d')); reads_only.
Qed.

Lemma reads_only_schedule_next_review status difficulty :
  reads_only (schedule_next_review status difficulty).
Proof. intros w. reflexivity. Qed.

Lemma reads_only_stats_overview : reads_only stats_overview.
Proof.
  unfold stats_overview. apply reads_only_bind; [apply reads_only_get_data |].
  intros d. destruct (fold_left _ _ _). apply reads_only_ret.
Qed.

(** ** Properties of every problem record that the script maintains *)

Section Invariant.

Variable Q : string -> problem -> Prop.

Hypothesis Q_fresh :
  forall title slug url difficulty topics,
    Q slug (mk_problem title slug url difficulty topics 0 None None None).

Hypothesis Q_logged :
  forall pid p status end_time logged_at,
    Q pid p -> Q pid (logged_problem p status end_time logged_at).

Lemma all_problems_set d pid p log :
  all_problems Q d -> Q pid p ->
  all_problems Q (mk_data (set pid p (problems d)) log).
Proof.
  intros Hd Hp k q Hin. cbn [problems] in Hin.
  apply in_set in Hin as [Hin | [-> ->]]; [now apply Hd | exact Hp].
Qed.

Lemma preserves_add_problem : preserves (all_problems Q) add_problem.
Proof.
  unfold add_problem.
  apply preserves_bind;
    [apply preserves_reads_only, reads_only_input_non_empty | intros title].
  apply preserves_bind;
    [apply preserves_reads_only, reads_only_input_non_empty | intros slug].
  apply preserves_bind;
    [apply preserves_reads_only, reads_only_input | intros url_input].
  apply preserves_bind;
    [apply preserves_reads_only, reads_only_input_until | intros difficulty].
  apply preserves_bind;
    [apply preserves_reads_only, reads_only_input | intros topics_line].
  intros w Hw. unfold data_after, world_after, bind, get_data, put_data,
    save_data, ret, set_data. cbn [fst snd w_data].
  apply all_problems_set; [exact Hw | apply Q_fresh].
Qed.

Lemma preserves_record_session pid start_time end_time status notes :
  preserves (all_problems Q)
    (record_session pid start_time end_time status notes).
Proof.
  intros w Hw. unfold data_after, world_after.
  destruct (get pid (problems (w_data w))) as [p |] eqn:G.
  - rewrite (record_session_ok _ _ _ _ _ _ _ G). cbn [snd set_data w_data].
    apply all_problems_set; [exact Hw |].
    apply Q_logged. apply get_in in G. apply (Hw _ _ G).
  - rewrite (record_session_unknown _ _ _ _ _ _ G). exact Hw.
Qed.

Lemma preserves_start_practice_session :
  preserves (all_problems Q) start_practice_session.
Proof.
  unfold start_practice_session.
  apply preserves_bind;
    [apply preserves_reads_only, reads_only_choose_problem | intros chosen].
  destruct chosen as [pid |];
    [| apply preserves_reads_only, reads_only_ret].
  apply preserves_bind;
    [apply preserves_reads_only, reads_only_datetime_now | intros start_time].
  apply preserves_bind;
    [apply preserves_reads_only, reads_only_input | intros _].
  apply preserves_bind;
    [apply preserves_reads_only, reads_only_datetime_now | intros end_time].
  apply preserves_bind;
    [apply preserves_reads_only, reads_only_input_until | intros status].
  apply preserves_bind;
    [apply preserves_reads_only, reads_only_input | intros notes_line].
  apply preserves_bind; [apply preserves_record_session | intros _].
  apply preserves_reads_only, reads_only_ret.
Qed.

Lemma reachable_all_problems d : reachable d -> all_problems Q d.
Proof.
  induction 1 as [| w _ IH | w _ IH].
  - intros pid p [].
  - apply preserves_add_problem, IH.
  - apply preserves_start_practice_session, IH.
Qed.

End Invariant.

(** ** The turns of the main menu *)

Section Turns.

Lemma consumes_ret {A} (a : A) : consumes (ret a).
Proof. intros w. apply Nat.le_refl. Qed.

Lemma consumes_raise {A} e : consumes (@raise A e).
Proof. intros w. apply Nat.le_refl. Qed.

Lemma consumes_lift {A} (r : completion A) : consumes (lift r).
Proof. intros w. apply Nat.le_refl. Qed.

Lemma consumes_get_data : consumes get_data.
Proof. intros w. apply Nat.le_refl. Qed.

Lemma consumes_put_data d : consumes (put_data d).
Proof. intros w. apply Nat.le_refl. Qed.

Lemma consumes_datetime_now : consumes datetime_now.
Proof. intros w. apply Nat.le_refl. Qed.

Lemma consumes_random_choice l : consumes (random_choice l).
Proof.
  intros w. unfold world_after, random_choice.
  destruct l; apply Nat.le_refl.
Qed.

Lemma consumes_input : consumes input.
Proof.
  intros w. unfold world_after, input.
  destruct (w_stdin w) as [| l rest] eqn:E; cbn [snd set_stdin w_stdin].
  - rewrite E. apply Nat.le_refl.
  - apply Nat.le_succ_diag_r.
Qed.

Lemma input_until_from_shorter {A} (accept : string -> option A) lines :
  (List.length (snd (input_until_from accept lines)) <= List.length lines)%nat.
Proof.
  induction lines as [| l rest IH]; cbn [input_until_from];
    [apply Nat.le_refl |].
  destruct (accept l); cbn [snd List.length];
    [apply Nat.le_succ_diag_r | apply Nat.le_le_succ_r, IH].
Qed.

Lemma consumes_input_until {A} (accept : string -> option A) :
  consumes (input_until accept).
Proof.
  intros w. unfold world_after, input_until.
  pose proof (input_until_from_shorter accept (w_stdin w)) as H.
  destruct (input_until_from accept (w_stdin w)). exact H.
Qed.

Lemma consumes_bind {A B} (m : M A) (k : A -> M B) :
  consumes m -> (forall a, consumes (k a)) -> consumes (bind m k).
Proof.
  intros Hm Hk w. specialize (Hm w). unfold world_after, bind in *.
  destruct (m w) as [[a | e] w1]; cbn [snd] in *; [| exact Hm].
  etransitivity; [apply Hk | exact Hm].
Qed.

End Turns.

Ltac consumes :=
  repeat first
    [ apply consumes_bind; [| intros ?]
    | apply consumes_ret
    | apply consumes_raise
    | apply consumes_lift
    | apply consumes_get_data
    | apply consumes_put_data
    | apply consumes_input
    | apply consumes_datetime_now
    | apply consumes_random_choice
    | apply consumes_input_until ].







Lemma bind_run {A B} (m : M A) (k : A -> M B) w r w1 :
  m w = (r, w1) ->
  bind m k w = match r with
               | Ok a => k a w1
               | Raise e => (Raise e, w1)
               end.
Proof. unfold bind. intros ->. destruct r; reflexivity. Qed.

Lemma bind_input {B} (k : string -> M B) w :
  bind input k w
  = match w_stdin w with
    | [] => (Raise EOFError, w)
    | l :: rest => k l (set_stdin rest w)
    end.
Proof. unfold bind, input. destruct (w_stdin w); reflexivity. Qed.


(** The script as a whole builds reachable data from reachable data. *)
Lemma preserves_reachable_main_menu : preserves reachable main_menu.
Proof.
  assert (Hloop : forall turns, preserves reachable (main_menu_loop turns)).
  { induction turns as [| turns IH]; cbn [main_menu_loop].
    - apply preserves_reads_only, reads_only_raise.
    - apply preserves_bind;
        [apply preserves_reads_only, reads_only_input | intros line].
      destruct (String.eqb (strip line) "1").
      { apply preserves_bind; [| intros _; exact IH].
        intros w Hw. now apply reach_add_problem. }
      destruct (String.eqb (strip line) "2").
      { apply preserves_bind; [| intros _; exact IH].
        apply preserves_reads_only. unfold list_problems. reads_only. }
      destruct (String.eqb (strip line) "3").
      { apply preserves_bind; [| intros _; exact IH].
        intros w Hw. now apply reach_practice_session. }
      destruct (String.eqb (strip line) "4").
      { apply preserves_bind; [| intros _; exact IH].
        apply preserves_reads_only, reads_only_stats_overview. }
      destruct (String.eqb (strip line) "5"); [| exact IH].
      apply preserves_reads_only, reads_only_ret. }
  intros w Hw. apply (Hloop _ w Hw).
Qed.

Lemma problem_inv_fresh title slug url difficulty topics :
  problem_inv (mk_problem title slug url difficulty topics 0 None None None).
Proof.
  unfold problem_inv.
  cbn [p_attempts p_last_status p_last_practiced p_next_review].
  split; [lia |]. repeat split; intros; (reflexivity || assumption).
Qed.

Lemma problem_inv_logged p status end_time logged_at :
  problem_inv p -> problem_inv (logged_problem p status end_time logged_at).
Proof.
  intros [H _]. unfold problem_inv, logged_problem.
  cbn [p_attempts p_last_status p_last_practiced p_next_review].
  split; [lia |]. split; [split; [intros; lia | discriminate] |].
  split; split; intros; (discriminate || assumption || congruence).
Qed.



(** ** The selector *)

Section Selector.

Lemma mem_In x l : mem x l = true <-> In x l.
Proof.
  unfold mem. rewrite existsb_exists. split.
  - intros (y & Hy & E). apply String.eqb_eq in E. now subst.
  - intros H. exists x. split; [exact H | apply String.eqb_refl].
Qed.

Lemma filter_loop_spec now diff_filter topic_filter only_due items :
  (only_due = true ->
   forall pid p nr, In (pid, p) items -> p_next_review p = Some nr ->
                    strptime nr <> None) ->
  forall acc,
    filter_loop now diff_filter topic_filter only_due items acc
    = Ok (acc ++ map fst
                   (filter (fun kp => keeps now diff_filter topic_filter
                                        only_due (snd kp)) items))%list.
Proof.
  induction items as [| [pid p] rest IH]; intros Hparse acc.
  - cbn. now rewrite app_nil_r.
  - assert (Hrest : only_due = true ->
                    forall pid p nr, In (pid, p) rest ->
                      p_next_review p = Some nr -> strptime nr <> None).
    { intros Hd k q nr Hin. apply (Hparse Hd k q nr). now right. }
    specialize (IH Hrest).
    cbn [filter_loop filter snd].
    set (kept := filter _ rest) in *. unfold keeps.
    destruct (truthy_opt diff_filter && negb _); cbn [negb andb];
      [apply IH |].
    destruct (truthy_opt topic_filter && negb _); cbn [negb andb];
      [apply IH |].
    destruct only_due; cbn [negb orb].
    + destruct (p_next_review p) as [nr |] eqn:N.
      * destruct (strptime nr) as [nr_dt |] eqn:P.
        -- destruct (now <? nr_dt); cbn [negb]; rewrite IH; [reflexivity |].
           cbn [map fst]. now rewrite <- app_assoc.
        -- exfalso. apply (Hparse eq_refl pid p nr); auto. now left.
      * rewrite IH. cbn [map fst]. now rewrite <- app_assoc.
    + rewrite IH. cbn [map fst]. now rewrite <- app_assoc.
Qed.


Lemma filter_problems_run w diff_filter topic_filter only_due :
  (only_due = true -> timestamps_parse (w_data w)) ->
  filter_problems diff_filter topic_filter only_due w
  = (Ok (map fst
           (filter (fun kp => keeps (next_reading w) diff_filter topic_filter
                                only_due (snd kp))
              (problems (w_data w)))),
     tick w).
Proof.
  intros H. unfold filter_problems, bind, datetime_now, get_data, lift.
  cbn [w_data items]. rewrite filter_loop_spec; [reflexivity |].
  intros Hd pid p nr. apply (H Hd).
Qed.

Lemma in_kept {V} (f : string * V -> bool) (l : list (string * V)) pid :
  In pid (map fst (filter f l)) <-> exists v, In (pid, v) l /\ f (pid, v) = true.
Proof.
  rewrite in_map_iff. split.
  - intros ([k v] & E & H). cbn in E. subst.
    apply filter_In in H. now exists v.
  - intros (v & H & F). exists (pid, v). split; [reflexivity |].
    apply filter_In. auto.
Qed.

Lemma filter_true {V} (l : list V) : filter (fun _ => true) l = l.
Proof. induction l; cbn; congruence. Qed.

End Selector.

(** ** The statistics *)

Section Stats.

Lemma stats_fold_solved l :
  forall by_diff count,
    snd (fold_left stats_step l (by_diff, count))
    = count
      + Z.of_nat
          (List.length
             (filter (fun p => match p_last_status p with
                               | Some s => String.eqb s "solved"
                               | None => false
                               end) l)).
Proof.
  induction l as [| p l IH]; intros by_diff count.
  - cbn. lia.
  - cbn [fold_left filter]. unfold stats_step at 2.
    rewrite IH. destruct (p_last_status p) as [s |].
    + destruct (String.eqb s "solved"); cbn [List.length]; lia.
    + lia.
Qed.

Lemma stats_overview_run w :
  exists s,
    stats_overview w = (Ok s, w)
    /\ total_problems s = Z.of_nat (List.length (problems (w_data w)))
    /\ total_sessions s = Z.of_nat (List.length (sessions (w_data w)))
    /\ solved_count s = last_status_solved (w_data w)
    /\ last_sessions s = last_n 5 (sessions (w_data w)).
Proof.
  unfold stats_overview, bind, get_data, ret.
  pose proof (stats_fold_solved (values (problems (w_data w)))
                [("easy", 0); ("medium", 0); ("hard", 0)] 0) as F.
  destruct (fold_left _ _ _) as [by_diff count]. cbn [snd] in F.
  eexists. split; [reflexivity |]. cbn. repeat split. exact F.
Qed.

End Stats.

(** ** The sign of a duration in minutes *)

Section Floats.

Lemma shr_1_nonneg mrs : 0 <= shr_m mrs -> 0 <= shr_m (shr_1 mrs).
Proof.
  destruct mrs as [m r s]. cbn [shr_m].
  destruct m as [| [p | p |] | p]; cbn [shr_1 shr_m]; lia.
Qed.

Lemma iter_shr_1_nonneg p :
  forall mrs, 0 <= shr_m mrs -> 0 <= shr_m (iter_pos shr_1 p mrs).
Proof.
  induction p as [p IH | p IH |]; intros mrs H; cbn [iter_pos].
  - apply IH, IH, shr_1_nonneg, H.
  - apply IH, IH, H.
  - apply shr_1_nonneg, H.
Qed.

Lemma shr_fexp_nonneg m e l :
  0 <= m -> 0 <= shr_m (fst (shr_fexp prec emax m e l)).
Proof.
  intros H. unfold shr_fexp, shr.
  assert (H0 : 0 <= shr_m (shr_record_of_loc m l)).
  { destruct l as [| []]; exact H. }
  destruct (fexp prec emax (Zdigits2 m + e) - e) as [| p | p]; cbn [fst];
    [exact H0 | apply iter_shr_1_nonneg, H0 | exact H0].
Qed.

Lemma round_nearest_even_nonneg m l : 0 <= m -> 0 <= round_nearest_even m l.
Proof.
  intros H. unfold round_nearest_even.
  destruct l as [| []]; try destruct (Z.even m); lia.
Qed.

Lemma binary_round_aux_negative mx ex lx :
  0 <= mx -> negative_form (binary_round_aux prec emax true mx ex lx).
Proof.
  intros H. unfold binary_round_aux.
  pose proof (shr_fexp_nonneg mx ex lx H) as H1.
  destruct (shr_fexp prec emax mx ex lx) as [mrs' e']. cbn [fst] in H1.
  pose proof (shr_fexp_nonneg _ e' loc_Exact
                (round_nearest_even_nonneg _ (loc_of_shr_record mrs') H1))
    as H2.
  destruct (shr_fexp prec emax _ e' loc_Exact) as [mrs'' e''].
  cbn [fst] in H2.
  destruct (shr_m mrs'') as [| m | m]; [exact I | | lia].
  destruct (Z.leb _ _); exact I.
Qed.

Lemma SFdiv_core_binary_nonneg m1 e1 m2 e2 :
  0 <= fst (fst (SFdiv_core_binary prec emax (Zpos m1) e1 (Zpos m2) e2)).
Proof.
  unfold SFdiv_core_binary.
  set (s := _ - _ - _).
  set (m' := match s with Zpos _ => Z.shiftl (Zpos m1) s | Z0 => Zpos m1
                        | Zneg _ => Z0 end).
  assert (Hm : 0 <= m').
  { unfold m'. destruct s; [lia | apply Z.shiftl_nonneg; lia | lia]. }
  pose proof (Z.div_pos m' (Zpos m2) Hm ltac:(lia)) as Hq.
  unfold Z.div in Hq.
  destruct (Z.div_eucl m' (Zpos m2)) as [q r]. exact Hq.
Qed.

Lemma SFdiv_negative x my ey :
  negative_form x ->
  negative_form (SFdiv prec emax x (S754_finite false my ey)).
Proof.
  intros H. destruct x as [[] | [] | | [] mx ex]; try contradiction;
    cbn [SFdiv xorb]; try exact I.
  pose proof (SFdiv_core_binary_nonneg mx ex my ey) as Hq.
  destruct (SFdiv_core_binary prec emax _ _ _ _) as [[mz ez] lz].
  apply binary_round_aux_negative, Hq.
Qed.

Lemma total_seconds_negative td : td < 0 -> negative_form (total_seconds td).
Proof.
  intros H. unfold total_seconds, int_truediv, us_per_second.
  destruct td as [| q | q]; try lia.
  apply SFdiv_negative. exact I.
Qed.

Lemma round1_negative x : negative_form x -> negative_form (round1 x).
Proof.
  intros H. destruct x as [[] | [] | | [] m e]; try contradiction;
    try exact I.
  unfold round1. destruct (nearest_even _ _); try exact I.
  apply SFdiv_negative. exact I.
Qed.

Lemma negative_form_nonpositive x :
  negative_form x -> is_nonpositive x = true.
Proof.
  destruct x as [[] | [] | | [] m e]; intros H; try contradiction;
    reflexivity.
Qed.

(** A duration that is negative is recorded as a number of minutes that
    is negative or zero. *)
Lemma minutes_nonpositive td :
  td < 0 ->
  is_nonpositive (round1 (truediv (total_seconds td) (of_int 60))) = true.
Proof.
  intros H. apply negative_form_nonpositive, round1_negative.
  unfold truediv. change (of_int 60) with
    (S754_finite false 8444249301319680 (-47)).
  apply SFdiv_negative. now apply total_seconds_negative.
Qed.

End Floats.

(** ** Timestamps and whole days *)

Lemma whole_second_add_days t n :
  whole_second (t + days n) = whole_second t + days n.
Proof.
  unfold whole_second, days, us_per_day.
  replace (t + n * (86400 * us_per_second))
    with (t + (n * 86400) * us_per_second) by lia.
  rewrite Z.div_add by discriminate. lia.
Qed.

(** * The claims *)

(** ** The scheduler *)

(** C1.  For each result in solved, partial, unsolved and each difficulty
    in easy, medium, hard, [schedule_next_review] returns (it never
    raises) the timestamp of the current clock reading plus the interval of
    the table: 3, 2 and 1 days for a solved easy, medium and hard problem,
    1 day otherwise.  Read back, the timestamp lies exactly that interval
    after the timestamp of the current reading. *)
Theorem schedule_next_review_table (w : world) (status difficulty : string)
    (n : Z) :
  In (status, difficulty, n) review_table ->
  min_fmt <= next_reading w -> next_reading w + days 3 < max_fmt ->
  exists next t_next t_now,
    schedule_next_review (Some status) difficulty w = (Ok next, tick w)
    /\ next = strftime (next_reading w + days n)
    /\ strptime next = Some t_next
    /\ strptime (strftime (next_reading w)) = Some t_now
    /\ t_next - t_now = days n.
Proof.
  intros Htable Hlo Hhi.
  assert (Hn : 1 <= n <= 3).
  { unfold review_table in Htable. cbn [In] in Htable.
    repeat (destruct Htable as [E | Htable]; [inversion E; lia |]).
    destruct Htable. }
  exists (strftime (next_reading w + days n)),
    (whole_second (next_reading w) + days n), (whole_second (next_reading w)).
  rewrite schedule_next_review_run, (review_delta_table _ _ _ Htable).
  split; [reflexivity |]. split; [reflexivity |].
  split; [| split; [| lia]].
  - rewrite <- whole_second_add_days. apply strptime_strftime.
    unfold days, us_per_day, us_per_second in *. lia.
  - apply strptime_strftime.
    unfold days, us_per_day, us_per_second in *. lia.
Qed.

Lemma schedule_next_review_table_witness :
  exists next t_next t_now,
    schedule_next_review (Some "solved") "easy" prompt_log_world
    = (Ok next, tick prompt_log_world)
    /\ next = strftime (t_end + days 3)
    /\ strptime next = Some t_next
    /\ strptime (strftime t_end) = Some t_now
    /\ t_next - t_now = days 3.
Proof.
  apply (schedule_next_review_table prompt_log_world "solved" "easy" 3).
  - cbn. auto.
  - vm_compute. discriminate.
  - vm_compute. reflexivity.
Defined.

(** ** The session recorder *)

(** C2, as the claim states it, fails: the review is not counted from the
    end of the session.  In a session that ends at 10:20:00 and whose
    result is typed five seconds later, the solved easy problem is due
    again at 10:20:05 three days later, not at 10:20:00. *)
Lemma next_review_not_from_session_end :
  value_of start_practice_session late_log_world = Ok tt
  /\ exists p s,
      get "two-sum" (problems (data_after start_practice_session late_log_world))
      = Some p
      /\ sessions (data_after start_practice_session late_log_world) = [s]
      /\ s_end s = "2024-01-01 10:20:00"
      /\ p_next_review p = Some "2024-01-04 10:20:05"
      /\ p_next_review p <> Some (strftime (t_end + days 3)).
Proof.
  split; [vm_compute; reflexivity |].
  eexists. eexists.
  split; [vm_compute; reflexivity |].
  split; [vm_compute; reflexivity |].
  split; [vm_compute; reflexivity |].
  split; [vm_compute; reflexivity |].
  vm_compute. discriminate.
Qed.

(** C2, amended.  Recording a session on a problem of the catalog sets its
    [next_review] to the timestamp of the clock reading taken when the
    session is logged, plus the interval of the table for the result and
    the difficulty of the problem; it adds one to [attempts], sets
    [last_status] to the result and [last_practiced] to the end of the
    session, and appends a session whose [minutes] is the difference of
    end and start in minutes, rounded to one decimal. *)
Theorem record_session_effects (w : world) (pid : string) (p : problem)
    (start_time end_time : datetime) (status notes : string) (n : Z) :
  get pid (problems (w_data w)) = Some p ->
  In (status, p_difficulty p, n) review_table ->
  exists s w' p',
    record_session pid start_time end_time status notes w = (Ok s, w')
    /\ get pid (problems (w_data w')) = Some p'
    /\ p_next_review p' = Some (strftime (next_reading w + days n))
    /\ p_attempts p' = p_attempts p + 1
    /\ p_last_status p' = Some status
    /\ p_last_practiced p' = Some (strftime end_time)
    /\ sessions (w_data w') = (sessions (w_data w) ++ [s])%list
    /\ s_minutes s
       = round1 (truediv (total_seconds (end_time - start_time)) (of_int 60))
    /\ s_problem_id s = pid /\ s_status s = status
    /\ s_start s = strftime start_time /\ s_end s = strftime end_time.
Proof.
  intros Hget Htable.
  eexists. eexists. eexists.
  split; [apply (record_session_ok _ _ _ _ _ _ _ Hget) |].
  cbn [set_data w_data problems sessions].
  split; [apply get_set_same |].
  unfold logged_problem, logged_session.
  cbn [p_next_review p_attempts p_last_status p_last_practiced s_minutes
       s_problem_id s_status s_start s_end].
  rewrite (review_delta_table _ _ _ Htable).
  repeat split; reflexivity.
Qed.

Lemma record_session_effects_witness :
  exists s w' p',
    record_session "two-sum" t_start t_end "solved" "" prompt_log_world
    = (Ok s, w')
    /\ get "two-sum" (problems (w_data w')) = Some p'
    /\ p_next_review p' = Some (strftime (t_end + days 3))
    /\ p_attempts p' = 0 + 1
    /\ p_last_status p' = Some "solved"
    /\ p_last_practiced p' = Some (strftime t_end)
    /\ sessions (w_data w') = ([] ++ [s])%list
    /\ s_minutes s = round1 (truediv (total_seconds (t_end - t_start)) (of_int 60))
    /\ s_problem_id s = "two-sum" /\ s_status s = "solved"
    /\ s_start s = strftime t_start /\ s_end s = strftime t_end.
Proof.
  apply (record_session_effects prompt_log_world "two-sum" two_sum
           t_start t_end "solved" "" 3).
  - reflexivity.
  - cbn. auto.
Defined.

(** The example of the specification, when the session is logged in the
    second in which it ends. *)
Example record_session_two_sum :
  strftime (t_end + days 3) = "2024-01-04 10:20:00"
  /\ round1 (truediv (total_seconds (t_end - t_start)) (of_int 60)) = of_int 20.
Proof. split; vm_compute; reflexivity. Qed.

(** C5, as the claim states it, fails: a session whose end reads ten
    seconds before its start is recorded with a negative duration,
    -0.2 minutes, not with 0. *)
Lemma negative_duration_is_recorded :
  value_of start_practice_session clock_set_back_world = Ok tt
  /\ exists s,
      sessions (data_after start_practice_session clock_set_back_world) = [s]
      /\ s_start s = "2024-01-01 10:00:10" /\ s_end s = "2024-01-01 10:00:00"
      /\ s_minutes s = truediv (of_int (-2)) (of_int 10)
      /\ is_negative (s_minutes s) = true
      /\ SFeqb (s_minutes s) (of_int 0) = false.
Proof.
  split; [vm_compute; reflexivity |].
  eexists. split; [vm_compute; reflexivity |].
  repeat split; vm_compute; reflexivity.
Qed.

(** C5, amended.  When the end of a session reads before its start,
    recording it on a problem of the catalog does not fail, and [minutes]
    is the signed difference of end and start in minutes, rounded to one
    decimal: nothing clamps it, and it is a number that is negative or
    zero. *)
Theorem record_session_end_before_start (w : world) (pid : string)
    (p : problem) (start_time end_time : datetime) (status notes : string) :
  get pid (problems (w_data w)) = Some p ->
  end_time < start_time ->
  exists s w',
    record_session pid start_time end_time status notes w = (Ok s, w')
    /\ s_minutes s
       = round1 (truediv (total_seconds (end_time - start_time)) (of_int 60))
    /\ is_nonpositive (s_minutes s) = true.
Proof.
  intros Hget Hlt. eexists. eexists.
  split; [apply (record_session_ok _ _ _ _ _ _ _ Hget) |].
  unfold logged_session. cbn [s_minutes].
  split; [reflexivity |]. apply minutes_nonpositive. lia.
Qed.

Lemma record_session_end_before_start_witness :
  exists s w',
    record_session "two-sum" (make 2024 1 1 10 0 10) (make 2024 1 1 10 0 0)
      "unsolved" "" prompt_log_world = (Ok s, w')
    /\ s_minutes s
       = round1 (truediv (total_seconds (make 2024 1 1 10 0 0
                                         - make 2024 1 1 10 0 10))
                   (of_int 60))
    /\ is_nonpositive (s_minutes s) = true.
Proof.
  apply (record_session_end_before_start prompt_log_world "two-sum" two_sum).
  - reflexivity.
  - vm_compute. reflexivity.
Defined.

(** C6.  Recording a session on a slug that is not in the catalog raises
    [KeyError] for that slug, the error of the script for an unknown
    problem, and the world is the one before the call: neither the catalog
    nor the session log has changed. *)
Theorem record_session_unknown_problem (w : world) (pid : string)
    (start_time end_time : datetime) (status notes : string) :
  get pid (problems (w_data w)) = None ->
  record_session pid start_time end_time status notes w
  = (Raise (KeyError pid), w)
  /\ problems (data_after (record_session pid start_time end_time status notes) w)
     = problems (w_data w)
  /\ sessions (data_after (record_session pid start_time end_time status notes) w)
     = sessions (w_data w).
Proof.
  intros Hget. unfold data_after, world_after.
  unfold record_session, bind, get_data. rewrite Hget.
  repeat split; reflexivity.
Qed.

Lemma record_session_unknown_problem_witness :
  record_session "4sum" t_start t_end "solved" "" prompt_log_world
  = (Raise (KeyError "4sum"), prompt_log_world)
  /\ problems (data_after (record_session "4sum" t_start t_end "solved" "")
                 prompt_log_world)
     = problems (w_data prompt_log_world)
  /\ sessions (data_after (record_session "4sum" t_start t_end "solved" "")
                 prompt_log_world)
     = sessions (w_data prompt_log_world).
Proof.
  apply (record_session_unknown_problem prompt_log_world "4sum").
  reflexivity.
Defined.

(** C9.  When recording a session on the slug [pid] succeeds, every other
    slug is bound to the record it was bound to, the catalog has the same
    keys in the same order, and the session log is the former log followed
    by the record that is returned. *)
Theorem record_session_frame (w w' : world) (pid : string)
    (start_time end_time : datetime) (status notes : string) (s : session) :
  record_session pid start_time end_time status notes w = (Ok s, w') ->
  (forall k, k <> pid ->
     get k (problems (w_data w')) = get k (problems (w_data w)))
  /\ (forall k q, k <> pid ->
        (In (k, q) (problems (w_data w')) <-> In (k, q) (problems (w_data w))))
  /\ keys (problems (w_data w')) = keys (problems (w_data w))
  /\ sessions (w_data w') = (sessions (w_data w) ++ [s])%list.
Proof.
  intros Hrun.
  destruct (get pid (problems (w_data w))) as [p |] eqn:Hget.
  - rewrite (record_session_ok _ _ _ _ _ _ _ Hget) in Hrun.
    inversion Hrun; subst. cbn [set_data w_data problems sessions].
    split; [intros k Hk; now apply get_set_other |].
    split; [intros k q Hk; now apply in_set_other |].
    split; [eapply keys_set_present; eauto | reflexivity].
  - rewrite (record_session_unknown _ _ _ _ _ _ Hget) in Hrun. discriminate.
Qed.

Lemma record_session_frame_witness :
  let w := example_world two_problems [] [t_end] in
  let run := record_session "two-sum" t_start t_end "solved" "" in
  get "3sum" (problems (data_after run w)) = Some three_sum
  /\ keys (problems (data_after run w)) = ["two-sum"; "3sum"]
  /\ sessions (data_after run w)
     = [logged_session "two-sum" t_start t_end "solved" ""].
Proof.
  intros w run.
  destruct (record_session_frame w (world_after run w) "two-sum"
              t_start t_end "solved" ""
              (logged_session "two-sum" t_start t_end "solved" "")
              eq_refl) as (Hget & _ & Hkeys & Hlog).
  unfold data_after. rewrite Hget by discriminate. rewrite Hkeys, Hlog.
  repeat split.
Defined.

(** ** The selector *)

Lemma truthy_lower s : truthy (lower s) = truthy s.
Proof. destruct s; reflexivity. Qed.









(** The candidates of the example: the problem with the topic "array", not
    the one with the topic "arrays". *)
Example select_candidates_array :
  value_of select_candidates topic_array_world = Ok ["two-sum"].
Proof. vm_compute. reflexivity. Qed.


Lemma due_world_parses : timestamps_parse (w_data due_world).
Proof.
  intros pid p nr Hin Hnr. cbn in Hin.
  repeat (destruct Hin as [E | Hin];
          [inversion E; subst; cbn in Hnr;
           try discriminate; inversion Hnr; subst; vm_compute; discriminate |]).
  destruct Hin.
Qed.


(** The candidates of the example at 10:00:00: the problem never practised
    and the one due since 09:00:00, not the one due the next day. *)
Example filter_problems_due :
  value_of (filter_problems None None true) due_world
  = Ok ["two-sum"; "3sum"].
Proof. vm_compute. reflexivity. Qed.

(** ** The invariant *)

(** C8.  Adding a problem, recording a session and a whole practice session
    maintain the invariant of the problem records ([attempts] is zero
    exactly when [last_status] is [None], exactly when [last_practiced] is
    [None], and [next_review] is set exactly when [last_practiced] is), and
    so the invariant holds of every catalog that the script builds from
    the empty one. *)
Theorem problem_invariant_preserved (w : world) :
  data_inv (w_data w) ->
  data_inv (data_after add_problem w)
  /\ (forall pid start_time end_time status notes,
        data_inv
          (data_after (record_session pid start_time end_time status notes) w))
  /\ data_inv (data_after start_practice_session w)
  /\ (forall d, reachable d -> data_inv d).
Proof.
  intros Hw.
  pose proof problem_inv_fresh as Hfresh.
  assert (Hlogged : forall (pid : string) p status end_time logged_at,
             problem_inv p ->
             problem_inv (logged_problem p status end_time logged_at)).
  { intros _. exact problem_inv_logged. }
  split; [now apply preserves_add_problem |].
  split; [intros; now apply preserves_record_session |].
  split; [now apply preserves_start_practice_session |].
  intros d. now apply reachable_all_problems.
Qed.

Lemma problem_invariant_preserved_witness :
  data_inv (data_after add_problem late_log_world)
  /\ data_inv (data_after start_practice_session late_log_world).
Proof.
  assert (H : data_inv (w_data late_log_world)).
  { intros pid p [E | []]. inversion E. apply problem_inv_fresh. }
  destruct (problem_invariant_preserved late_log_world H) as (A & _ & B & _).
  split; assumption.
Defined.

(** ** The statistics *)

(** C3, evaluated where it fails.  The statistics report the size of the
    catalog and of the session log, and as solved the number of problems
    whose latest result is "solved".  After a problem was solved in a
    first session and not solved in a second one, they count one problem
    and two sessions, but no solved problem, although one problem of the
    catalog is solved in a session of the log. *)
Theorem solved_count_is_latest_status :
  (forall w, exists s,
      stats_overview w = (Ok s, w)
      /\ total_problems s = Z.of_nat (List.length (problems (w_data w)))
      /\ total_sessions s = Z.of_nat (List.length (sessions (w_data w)))
      /\ solved_count s = last_status_solved (w_data w))
  /\ reachable (w_data solved_then_unsolved)
  /\ (exists s,
        stats_overview solved_then_unsolved = (Ok s, solved_then_unsolved)
        /\ total_problems s = 1 /\ total_sessions s = 2
        /\ solved_count s = 0)
  /\ solved_in_some_session (w_data solved_then_unsolved) = 1.
Proof.
  split; [| split; [| split]].
  - intros w. destruct (stats_overview_run w) as (s & Hrun & Hp & Hs & Hc & _).
    exists s. auto.
  - exact (reach_practice_session solved_once
             (reach_practice_session problem_added
                (reach_add_problem solved_then_unsolved_world reach_empty))).
  - destruct (stats_overview_run solved_then_unsolved)
      as (s & Hrun & Hp & Hs & Hc & _).
    exists s. split; [exact Hrun |]. rewrite Hp, Hs, Hc.
    repeat split; vm_compute; reflexivity.
  - vm_compute. reflexivity.
Qed.

(** The catalog and the log of the example. *)
Example solved_then_unsolved_data :
  map (fun kp => (fst kp, p_last_status (snd kp)))
    (problems (w_data solved_then_unsolved))
  = [("two-sum", Some "unsolved")]
  /\ map (fun s => (s_problem_id s, s_status s))
       (sessions (w_data solved_then_unsolved))
     = [("two-sum", "solved"); ("two-sum", "unsolved")].
Proof. split; vm_compute; reflexivity. Qed.

(** C10.  [stats_overview] returns and leaves the world as it is: neither
    the catalog nor the session log changes, and a second call returns
    what the first one returned.  On the empty data it reports no problem,
    no session, zero for each difficulty, no solved problem and no recent
    session. *)
Theorem stats_overview_pure_read (w : world) :
  exists s,
    stats_overview w = (Ok s, w)
    /\ stats_overview (world_after stats_overview w) = (Ok s, w)
    /\ stats_overview (set_data empty_data w)
       = (Ok (mk_stats 0 0 [("easy", 0); ("medium", 0); ("hard", 0)] 0 []),
          set_data empty_data w).
Proof.
  destruct (stats_overview_run w) as (s & Hrun & _).
  exists s. split; [exact Hrun |]. split.
  - unfold world_after. rewrite Hrun. exact Hrun.
  - reflexivity.
Qed.

(** * Further properties *)

(** ** [normalize_difficulty] *)

Lemma normalize_difficulty_some diff r :
  normalize_difficulty diff = Some r -> In r difficulties.
Proof.
  unfold normalize_difficulty, difficulties.
  repeat (destruct (mem _ _); [intros H; inversion H; cbn; auto |]).
  discriminate.
Qed.

Lemma normalize_difficulty_spellings diff r :
  normalize_difficulty diff = Some r
  <-> In (strip (lower diff), r) difficulty_spellings.
Proof.
  unfold normalize_difficulty, difficulty_spellings, mem.
  generalize (strip (lower diff)) as d. intros d. cbn [existsb In]. split.
  - repeat match goal with
           | |- context [String.eqb d ?s] =>
               destruct (String.eqb_spec d s) as [-> |]
           end;
      cbn; intros H; inversion H; subst; auto 10.
  - intros H.
    repeat (destruct H as [H | H];
            [inversion H; subst; reflexivity |]).
    destruct H.
Qed.

(** X1.  On ASCII text, [normalize_difficulty] returns "easy", "medium" and
    "hard" for themselves; it returns a name exactly for the seven
    spellings of [difficulty_spellings], read without the white space
    around them and in lower case, and nothing but one of the three names;
    and two texts that are the same up to the case of the letters and the
    white space around them get the same answer. *)
Theorem normalize_difficulty_canonical (diff other : string) :
  isascii diff = true -> isascii other = true ->
  normalize_difficulty "easy" = Some "easy"
  /\ normalize_difficulty "medium" = Some "medium"
  /\ normalize_difficulty "hard" = Some "hard"
  /\ (forall r, normalize_difficulty diff = Some r
                <-> In (strip (lower diff), r) difficulty_spellings)
  /\ (forall r, normalize_difficulty diff = Some r -> In r difficulties)
  /\ (lower (strip other) = lower (strip diff) ->
      normalize_difficulty other = normalize_difficulty diff).
Proof.
  intros _ _.
  split; [reflexivity |]. split; [reflexivity |]. split; [reflexivity |].
  split; [intros r; apply normalize_difficulty_spellings |].
  split; [intros r; apply normalize_difficulty_some |].
  unfold normalize_difficulty. rewrite <- !lower_strip. now intros ->.
Qed.

Lemma normalize_difficulty_canonical_witness :
  normalize_difficulty "  EaSy " = Some "easy"
  /\ normalize_difficulty "easy" = normalize_difficulty "  EaSy ".
Proof.
  destruct (normalize_difficulty_canonical "  EaSy " "easy" eq_refl eq_refl)
    as (_ & _ & _ & Hspell & _ & Hsame).
  split.
  - apply Hspell. vm_compute. auto.
  - apply Hsame. reflexivity.
Defined.

(** ** Reading lines *)

Lemma input_until_from_spec {A} (accept : string -> option A) lines :
  match input_until_from accept lines with
  | (Ok a, rest) =>
      exists skipped l,
        lines = (skipped ++ l :: rest)%list /\ accept l = Some a
        /\ Forall (fun x => accept x = None) skipped
  | (Raise e, rest) =>
      e = EOFError /\ rest = [] /\ Forall (fun x => accept x = None) lines
  end.
Proof.
  induction lines as [| l lines IH]; cbn [input_until_from].
  - repeat split. constructor.
  - destruct (accept l) as [a |] eqn:E.
    + exists [], l. repeat split; [exact E | constructor].
    + destruct (input_until_from accept lines) as [[a | e] rest].
      * destruct IH as (skipped & l' & -> & Ha & Hs).
        exists (l :: skipped), l'. repeat split; [exact Ha |].
        now constructor.
      * destruct IH as (-> & -> & Hs). repeat split. now constructor.
Qed.

Lemma input_until_spec {A} (accept : string -> option A) w :
  exists r rest,
    input_until accept w = (r, set_stdin rest w)
    /\ match r with
       | Ok a =>
           exists skipped l,
             w_stdin w = (skipped ++ l :: rest)%list /\ accept l = Some a
             /\ Forall (fun x => accept x = None) skipped
       | Raise e =>
           e = EOFError /\ rest = []
           /\ Forall (fun x => accept x = None) (w_stdin w)
       end.
Proof.
  unfold input_until.
  pose proof (input_until_from_spec accept (w_stdin w)) as H.
  destruct (input_until_from accept (w_stdin w)) as [r rest].
  exists r, rest. split; [reflexivity |]. destruct r; exact H.
Qed.

(** The lines that [input_non_empty] reads. *)
Lemma input_non_empty_reads w :
  exists r rest,
    input_non_empty w = (r, set_stdin rest w)
    /\ match r with
       | Ok val =>
           val <> EmptyString /\ strip val = val
           /\ exists skipped l,
               w_stdin w = (skipped ++ l :: rest)%list /\ val = strip l
               /\ Forall blank skipped
       | Raise e =>
           e = EOFError /\ rest = [] /\ Forall blank (w_stdin w)
       end.
Proof.
  unfold input_non_empty.
  destruct (input_until_spec
              (fun l => let val := strip l in
                        if truthy val then Some val else None) w)
    as (r & rest & Hrun & H).
  exists r, rest. split; [exact Hrun |].
  assert (Hblank : forall l,
             (let val := strip l in if truthy val then Some val else None)
             = None -> blank l).
  { intros l. cbv zeta. destruct (truthy (strip l)) eqn:E; [discriminate |].
    intros _. now apply truthy_false. }
  destruct r as [val | e].
  - destruct H as (skipped & l & Hin & Hl & Hs). cbv zeta in Hl.
    destruct (truthy (strip l)) eqn:E; [| discriminate].
    inversion Hl; subst val. split; [now apply truthy_true |].
    split; [apply strip_idempotent |].
    exists skipped, l. repeat split; [exact Hin |].
    eapply Forall_impl; [| exact Hs]. exact Hblank.
  - destruct H as (-> & -> & Hs). repeat split.
    eapply Forall_impl; [| exact Hs]. exact Hblank.
Qed.

(** X2.  On lines of ASCII text, [input_non_empty] skips the blank lines
    and returns the first line that is not blank, without the white space
    around it, so a text that is not empty; when only blank lines remain
    it reads them all and raises [EOFError].  It touches nothing but the
    standard input. *)
Theorem input_non_empty_skips_blank_lines (w : world) :
  ascii_lines (w_stdin w) = true ->
  exists r rest,
    input_non_empty w = (r, set_stdin rest w)
    /\ match r with
       | Ok val =>
           val <> EmptyString /\ strip val = val
           /\ exists skipped l,
               w_stdin w = (skipped ++ l :: rest)%list /\ val = strip l
               /\ Forall blank skipped
       | Raise e =>
           e = EOFError /\ rest = [] /\ Forall blank (w_stdin w)
       end.
Proof. intros _. apply input_non_empty_reads. Qed.

Lemma input_non_empty_skips_blank_lines_witness :
  exists r rest,
    input_non_empty blank_lines_world = (r, set_stdin rest blank_lines_world)
    /\ match r with
       | Ok val =>
           val <> EmptyString /\ strip val = val
           /\ exists skipped l,
               w_stdin blank_lines_world = (skipped ++ l :: rest)%list
               /\ val = strip l /\ Forall blank skipped
       | Raise e =>
           e = EOFError /\ rest = [] /\ Forall blank (w_stdin blank_lines_world)
       end.
Proof.
  apply (input_non_empty_skips_blank_lines blank_lines_world). reflexivity.
Defined.

(** The title that is returned in the example, and the line that remains. *)
Example input_non_empty_blank_lines :
  input_non_empty blank_lines_world
  = (Ok "Two Sum", set_stdin ["two-sum"] blank_lines_world).
Proof. reflexivity. Qed.

(** ** Running the script step by step *)

Lemma input_run w :
  exists r rest,
    input w = (r, set_stdin rest w)
    /\ match r with
       | Ok l => w_stdin w = l :: rest
       | Raise e => e = EOFError /\ rest = [] /\ w_stdin w = []
       end.
Proof.
  unfold input. destruct w as [d stdin clock reads random draws].
  cbn [w_stdin]. destruct stdin as [| l rest].
  - exists (Raise EOFError), []. repeat split.
  - exists (Ok l), rest. repeat split.
Qed.

Lemma input_non_empty_run w :
  exists r rest,
    input_non_empty w = (r, set_stdin rest w)
    /\ match r with
       | Ok val => val <> EmptyString
       | Raise e => e = EOFError /\ rest = []
       end.
Proof.
  unfold input_non_empty.
  destruct (input_until_spec
              (fun l => let val := strip l in
                        if truthy val then Some val else None) w)
    as (r & rest & Hrun & H).
  exists r, rest. split; [exact Hrun |].
  destruct r as [val | e].
  - destruct H as (skipped & l & _ & Hl & _). cbv zeta in Hl.
    destruct (truthy (strip l)) eqn:E; [| discriminate].
    inversion Hl; subst. now apply truthy_true.
  - destruct H as (-> & -> & _). now split.
Qed.

Lemma topics_of_line line :
  Forall (fun t => t <> EmptyString /\ strip t = t)
    (filter truthy (map strip (split "," line))).
Proof.
  apply Forall_forall. intros t Ht.
  apply filter_In in Ht as [Hin Htruthy].
  apply in_map_iff in Hin as (raw & <- & _).
  split; [now apply truthy_true | apply strip_idempotent].
Qed.

(** A run of [add_problem]: the input ends before the five answers are
    read and nothing is stored, or a fresh record is stored under the
    slug. *)
Lemma add_problem_cases w :
  add_problem w = (Raise EOFError, set_stdin [] w)
  \/ exists title slug url difficulty topics rest,
      add_problem w
      = (Ok tt,
         set_data
           (added (w_data w) slug
              (fresh_problem title slug url difficulty topics))
           (set_stdin rest w))
      /\ title <> EmptyString /\ slug <> EmptyString /\ url <> EmptyString
      /\ In difficulty difficulties
      /\ Forall (fun t => t <> EmptyString /\ strip t = t) topics.
Proof.
  unfold add_problem.
  destruct (input_non_empty_run w) as (r1 & l1 & E1 & H1).
  rewrite (bind_run _ _ _ _ _ E1).
  destruct r1 as [title | e]; [| destruct H1 as [-> ->]; now left].
  destruct (input_non_empty_run (set_stdin l1 w)) as (r2 & l2 & E2 & H2).
  rewrite (bind_run _ _ _ _ _ E2).
  destruct r2 as [slug | e]; [| destruct H2 as [-> ->]; now left].
  destruct (input_run (set_stdin l2 (set_stdin l1 w)))
    as (r3 & l3 & E3 & H3).
  rewrite (bind_run _ _ _ _ _ E3).
  destruct r3 as [url_input | e]; [| destruct H3 as (-> & -> & _); now left].
  destruct (input_until_spec normalize_difficulty
              (set_stdin l3 (set_stdin l2 (set_stdin l1 w))))
    as (r4 & l4 & E4 & H4).
  rewrite (bind_run _ _ _ _ _ E4).
  destruct r4 as [difficulty | e];
    [| destruct H4 as (-> & -> & _); now left].
  destruct (input_run
              (set_stdin l4 (set_stdin l3 (set_stdin l2 (set_stdin l1 w)))))
    as (r5 & l5 & E5 & H5).
  rewrite (bind_run _ _ _ _ _ E5).
  destruct r5 as [topics_line | e];
    [| destruct H5 as (-> & -> & _); now left].
  right.
  exists title, slug,
    (if truthy (strip url_input) then strip url_input
     else "https://leetcode.com/problems/" ++ slug ++ "/"),
    difficulty,
    (filter truthy (map strip (split "," (strip topics_line)))), l5.
  split; [reflexivity |].
  split; [exact H1 |]. split; [exact H2 |].
  split.
  { destruct (truthy (strip url_input)) eqn:E;
      [now apply truthy_true | discriminate]. }
  split.
  { destruct H4 as (skipped & l & _ & Hl & _).
    eapply normalize_difficulty_some, Hl. }
  apply topics_of_line.
Qed.

(** ** [add_problem] *)

Lemma keys_set_absent {V} k (v : V) d :
  get k d = None -> keys (set k v d) = (keys d ++ [k])%list.
Proof.
  unfold keys. induction d as [| [k' v'] r IH]; cbn [set get map fst app].
  - reflexivity.
  - destruct (String.eqb k k'); [discriminate |].
    intros H. cbn [map fst]. now rewrite IH.
Qed.

(** The loop of [input_until] on lines of which the first that is accepted
    is known. *)
Lemma input_until_run {A} (accept : string -> option A) w skipped l rest a :
  w_stdin w = (skipped ++ l :: rest)%list ->
  Forall (fun x => accept x = None) skipped ->
  accept l = Some a ->
  input_until accept w = (Ok a, set_stdin rest w).
Proof.
  intros Hin Hs Hl. unfold input_until. rewrite Hin. clear Hin.
  induction Hs as [| x skipped Hx _ IH]; cbn [app input_until_from].
  - now rewrite Hl.
  - rewrite Hx. exact IH.
Qed.

Lemma input_non_empty_first w skipped l rest :
  w_stdin w = (skipped ++ l :: rest)%list ->
  Forall blank skipped -> ~ blank l ->
  input_non_empty w = (Ok (strip l), set_stdin rest w).
Proof.
  intros Hin Hs Hl. unfold input_non_empty.
  apply (input_until_run _ w skipped l rest); [exact Hin | |].
  - eapply Forall_impl; [| exact Hs]. intros x Hx. cbv zeta.
    unfold blank in Hx. now rewrite Hx.
  - cbv zeta. destruct (truthy (strip l)) eqn:E; [reflexivity |].
    apply truthy_false in E. contradiction.
Qed.

(** X3.  On lines of ASCII text, [add_problem] returns exactly when the
    lines that remain are a title (after blank lines, if any), a slug
    (after blank lines, if any), a line for the URL, a line that
    [normalize_difficulty] accepts (after lines that it does not accept,
    if any) and a line of topics; it reads no more.  The catalog then
    binds the slug that was typed, stripped, to a record that was never
    practised (no attempt, no status, no date) with the title, the URL or
    the default URL, the difficulty and the topics that were typed, also
    when the slug was bound before.  Every other slug is bound as before,
    the session log is the same, and the slug keeps its place among the
    keys or, when it is new, comes last. *)
Theorem add_problem_stores_fresh_record (w : world) :
  ascii_lines (w_stdin w) = true ->
  (forall blanks1 title_line blanks2 slug_line url_line rejected diff_line
          difficulty topics_line rest,
      w_stdin w
      = (blanks1 ++ title_line :: blanks2 ++ slug_line :: url_line
           :: rejected ++ diff_line :: topics_line :: rest)%list ->
      Forall blank blanks1 -> ~ blank title_line ->
      Forall blank blanks2 -> ~ blank slug_line ->
      Forall (fun l => normalize_difficulty l = None) rejected ->
      normalize_difficulty diff_line = Some difficulty ->
      let slug := strip slug_line in
      let p :=
        fresh_problem (strip title_line) slug
          (if truthy (strip url_line) then strip url_line
           else "https://leetcode.com/problems/" ++ slug ++ "/")
          difficulty
          (filter truthy (map strip (split "," (strip topics_line)))) in
      exists w',
        add_problem w = (Ok tt, w')
        /\ w_stdin w' = rest
        /\ get slug (problems (w_data w')) = Some p
        /\ In (p_difficulty p) difficulties
        /\ Forall (fun t => t <> EmptyString /\ strip t = t) (p_topics p)
        /\ (forall k, k <> slug ->
              get k (problems (w_data w')) = get k (problems (w_data w)))
        /\ sessions (w_data w') = sessions (w_data w)
        /\ (get slug (problems (w_data w)) <> None ->
            keys (problems (w_data w')) = keys (problems (w_data w)))
        /\ (get slug (problems (w_data w)) = None ->
            keys (problems (w_data w'))
            = (keys (problems (w_data w)) ++ [slug])%list))
  /\ (forall w',
        add_problem w = (Ok tt, w') ->
        exists blanks1 title_line blanks2 slug_line url_line rejected
               diff_line difficulty topics_line,
          w_stdin w
          = (blanks1 ++ title_line :: blanks2 ++ slug_line :: url_line
               :: rejected ++ diff_line :: topics_line :: w_stdin w')%list
          /\ Forall blank blanks1 /\ ~ blank title_line
          /\ Forall blank blanks2 /\ ~ blank slug_line
          /\ Forall (fun l => normalize_difficulty l = None) rejected
          /\ normalize_difficulty diff_line = Some difficulty).
Proof.
  intros _. split.
  - intros blanks1 title_line blanks2 slug_line url_line rejected diff_line
      difficulty topics_line rest Hin Hb1 Ht Hb2 Hs Hrej Hd slug p.
    pose proof (input_non_empty_first w _ _ _ Hin Hb1 Ht) as E1.
    set (l1 := (blanks2 ++ _)%list) in *.
    pose proof (input_non_empty_first (set_stdin l1 w) blanks2 slug_line _
                  eq_refl Hb2 Hs) as E2.
    set (l3 := (rejected ++ _)%list) in *.
    pose proof (input_until_run normalize_difficulty
                  (set_stdin l3 (set_stdin (url_line :: l3) (set_stdin l1 w)))
                  rejected diff_line _ difficulty eq_refl Hrej Hd) as E4.
    eexists. split.
    { unfold add_problem.
      rewrite (bind_run _ _ _ _ _ E1), (bind_run _ _ _ _ _ E2).
      rewrite bind_input. cbn [w_stdin set_stdin].
      rewrite (bind_run _ _ _ _ _ E4).
      rewrite bind_input. cbn [w_stdin set_stdin].
      reflexivity. }
    cbn [set_data w_data set_stdin w_stdin problems sessions].
    split; [reflexivity |].
    fold slug. fold p.
    split; [apply get_set_same |].
    split; [eapply normalize_difficulty_some, Hd |].
    split; [apply topics_of_line |].
    split; [intros k Hk; now apply get_set_other |].
    split; [reflexivity |].
    split.
    + destruct (get slug (problems (w_data w))) as [old |] eqn:G;
        [intros _ | congruence].
      eapply keys_set_present, G.
    + apply keys_set_absent.
  - intros w' Hrun. unfold add_problem in Hrun.
    destruct (input_non_empty_reads w) as (r1 & l1 & E1 & H1).
    rewrite (bind_run _ _ _ _ _ E1) in Hrun.
    destruct r1 as [title | e]; [| discriminate].
    destruct H1 as (Ht & _ & blanks1 & title_line & Hin1 & -> & Hb1).
    destruct (input_non_empty_reads (set_stdin l1 w)) as (r2 & l2 & E2 & H2).
    rewrite (bind_run _ _ _ _ _ E2) in Hrun.
    destruct r2 as [slug | e]; [| discriminate].
    destruct H2 as (Hs & _ & blanks2 & slug_line & Hin2 & -> & Hb2).
    destruct (input_run (set_stdin l2 (set_stdin l1 w)))
      as (r3 & l3 & E3 & H3).
    rewrite (bind_run _ _ _ _ _ E3) in Hrun.
    destruct r3 as [url_line | e]; [| discriminate].
    destruct (input_until_spec normalize_difficulty
                (set_stdin l3 (set_stdin l2 (set_stdin l1 w))))
      as (r4 & l4 & E4 & H4).
    rewrite (bind_run _ _ _ _ _ E4) in Hrun.
    destruct r4 as [difficulty | e]; [| discriminate].
    destruct H4 as (rejected & diff_line & Hin4 & Hd & Hrej).
    destruct (input_run
                (set_stdin l4 (set_stdin l3 (set_stdin l2 (set_stdin l1 w)))))
      as (r5 & l5 & E5 & H5).
    rewrite (bind_run _ _ _ _ _ E5) in Hrun.
    destruct r5 as [topics_line | e]; [| discriminate].
    cbn [w_stdin set_stdin] in Hin2, H3, Hin4, H5.
    inversion Hrun; subst w'. clear Hrun.
    exists blanks1, title_line, blanks2, slug_line, url_line, rejected,
      diff_line, difficulty, topics_line.
    cbn [w_stdin set_data set_stdin].
    split; [now rewrite Hin1, Hin2, H3, Hin4, H5 |].
    repeat (split; [assumption |]). exact Hd.
Qed.

Lemma add_problem_stores_fresh_record_witness :
  exists w',
    add_problem add_three_sum_world = (Ok tt, w')
    /\ w_stdin w' = []
    /\ get "3sum" (problems (w_data w'))
       = Some (fresh_problem "3Sum" "3sum"
                 "https://leetcode.com/problems/3sum/" "medium"
                 ["Array"; "two-pointers"])
    /\ (forall k, k <> "3sum" ->
          get k (problems (w_data w'))
          = get k (problems (w_data add_three_sum_world)))
    /\ sessions (w_data w') = sessions (w_data add_three_sum_world)
    /\ keys (problems (w_data w')) = ["two-sum"; "3sum"].
Proof.
  destruct (add_problem_stores_fresh_record add_three_sum_world eq_refl)
    as [Hstores _].
  destruct (Hstores [] "3Sum" ["  "] "3sum" "" ["hardish"] "M" "medium"
              " Array , two-pointers,, " [])
    as (w' & Hrun & Hrest & Hget & _ & _ & Hother & Hlog & _ & Hnew).
  - reflexivity.
  - constructor.
  - discriminate.
  - repeat constructor.
  - discriminate.
  - repeat constructor.
  - reflexivity.
  - exists w'. split; [exact Hrun |]. split; [exact Hrest |].
    split; [exact Hget |]. split; [exact Hother |]. split; [exact Hlog |].
    apply Hnew. reflexivity.
Defined.

(** X4.  [add_problem] raises nothing but [EOFError], at the end of the
    input, and then nothing is stored: the catalog and the session log
    are the ones before the call. *)
Theorem add_problem_failure_stores_nothing (w w' : world) (e : exn) :
  add_problem w = (Raise e, w') ->
  e = EOFError /\ w_data w' = w_data w /\ w_stdin w' = [].
Proof.
  intros Hrun.
  destruct (add_problem_cases w)
    as [E | (title & slug & url & difficulty & topics & rest & E & _)];
    rewrite E in Hrun; [| discriminate].
  inversion Hrun; subst. repeat split.
Qed.

Lemma add_problem_failure_stores_nothing_witness :
  data_after add_problem add_cut_short_world = one_problem.
Proof.
  destruct (add_problem_failure_stores_nothing add_cut_short_world
              (world_after add_problem add_cut_short_world) EOFError eq_refl)
    as (_ & Hdata & _).
  exact Hdata.
Defined.

(** ** [filter_problems] *)

Lemma filter_loop_cases now diff_filter topic_filter only_due items :
  forall acc,
    match filter_loop now diff_filter topic_filter only_due items acc with
    | Ok r =>
        r = (acc ++ map fst
                      (filter (fun kp => keeps now diff_filter topic_filter
                                           only_due (snd kp)) items))%list
    | Raise e =>
        only_due = true
        /\ exists pid p nr,
            In (pid, p) items /\ p_next_review p = Some nr
            /\ strptime nr = None /\ e = ValueError nr
    end.
Proof.
  induction items as [| [pid p] rest IH]; intros acc.
  - cbn. now rewrite app_nil_r.
  - assert (Hrest : forall acc',
               match filter_loop now diff_filter topic_filter only_due rest acc'
               with
               | Ok r =>
                   r = (acc' ++ map fst
                                  (filter (fun kp => keeps now diff_filter
                                                       topic_filter only_due
                                                       (snd kp)) rest))%list
               | Raise e =>
                   only_due = true
                   /\ exists pid0 p0 nr,
                       In (pid0, p0) ((pid, p) :: rest)
                       /\ p_next_review p0 = Some nr
                       /\ strptime nr = None /\ e = ValueError nr
               end).
    { intros acc'. specialize (IH acc').
      destruct (filter_loop _ _ _ _ rest acc') as [r | e]; [exact IH |].
      destruct IH as (Hd & k & q & nr & Hin & H).
      split; [exact Hd |]. exists k, q, nr. split; [now right | exact H]. }
    clear IH. cbn [filter_loop filter snd].
    set (kept := filter _ rest) in *. unfold keeps.
    destruct (truthy_opt diff_filter && negb _); cbn [negb andb];
      [apply Hrest |].
    destruct (truthy_opt topic_filter && negb _); cbn [negb andb];
      [apply Hrest |].
    destruct only_due; cbn [negb orb].
    + destruct (p_next_review p) as [nr |] eqn:N.
      * destruct (strptime nr) as [nr_dt |] eqn:P.
        -- destruct (now <? nr_dt); cbn [negb]; [apply Hrest |].
           specialize (Hrest (acc ++ [pid])%list).
           destruct (filter_loop _ _ _ _ rest _); [| exact Hrest].
           rewrite Hrest. cbn [map fst]. now rewrite <- app_assoc.
        -- split; [reflexivity |]. exists pid, p, nr.
           repeat split; [now left | exact N | exact P].
      * specialize (Hrest (acc ++ [pid])%list).
        destruct (filter_loop _ _ _ _ rest _); [| exact Hrest].
        rewrite Hrest. cbn [map fst]. now rewrite <- app_assoc.
    + specialize (Hrest (acc ++ [pid])%list).
      destruct (filter_loop _ _ _ _ rest _); [| exact Hrest].
      rewrite Hrest. cbn [map fst]. now rewrite <- app_assoc.
Qed.

Lemma filter_problems_cases w diff_filter topic_filter only_due :
  exists r,
    filter_problems diff_filter topic_filter only_due w = (r, tick w)
    /\ match r with
       | Ok candidates =>
           candidates
           = map fst
               (filter (fun kp => keeps (next_reading w) diff_filter
                                    topic_filter only_due (snd kp))
                  (problems (w_data w)))
       | Raise e =>
           only_due = true
           /\ exists pid p nr,
               In (pid, p) (problems (w_data w))
               /\ p_next_review p = Some nr
               /\ strptime nr = None /\ e = ValueError nr
       end.
Proof.
  unfold filter_problems, bind, datetime_now, get_data, lift.
  cbn [w_data items].
  pose proof (filter_loop_cases (next_reading w) diff_filter topic_filter
                only_due (problems (w_data w)) []) as H.
  unfold next_reading in *.
  destruct (filter_loop _ _ _ _ _ _) as [r | e].
  - exists (Ok r). split; [reflexivity | exact H].
  - exists (Raise e). split; [reflexivity | exact H].
Qed.

Lemma NoDup_kept {V} (f : string * V -> bool) (l : list (string * V)) :
  NoDup (map fst l) -> NoDup (map fst (filter f l)).
Proof.
  induction l as [| [k v] r IH]; cbn [map fst filter]; [trivial |].
  intros H. inversion H as [| ? ? Hk Hr]; subst.
  destruct (f (k, v)); [| now apply IH].
  cbn [map fst]. constructor; [| now apply IH].
  intros Hin. apply Hk. apply in_kept in Hin as (v' & Hin & _).
  apply in_map_iff. now exists (k, v').
Qed.

(** X5.  For a catalog with ASCII topics, and with every stored
    [next_review] a timestamp in [DATE_FORMAT] when [only_due] is set,
    [filter_problems] returns, reads the clock once and changes nothing
    else.  The candidates are the keys of the problems that pass its
    tests, in the order of the catalog: keys of the catalog, no more than
    there are problems, and each once when the keys are distinct.  When
    [only_due] is not set the clock reading has no part in them. *)
Theorem filter_problems_outcome (w : world)
    (diff_filter topic_filter : option string) (only_due : bool) :
  ascii_topics (w_data w) = true ->
  (only_due = true -> timestamps_parse (w_data w)) ->
  exists candidates,
    filter_problems diff_filter topic_filter only_due w
    = (Ok candidates, tick w)
    /\ candidates
       = keys (filter (fun kp => keeps (next_reading w) diff_filter
                                   topic_filter only_due (snd kp))
                 (problems (w_data w)))
    /\ incl candidates (keys (problems (w_data w)))
    /\ (List.length candidates <= List.length (problems (w_data w)))%nat
    /\ (NoDup (keys (problems (w_data w))) -> NoDup candidates)
    /\ (only_due = false ->
        forall w2,
          w_data w2 = w_data w ->
          filter_problems diff_filter topic_filter only_due w2
          = (Ok candidates, tick w2)).
Proof.
  intros _ Hparse. eexists.
  split; [now apply filter_problems_run |].
  split; [reflexivity |]. split; [| split; [| split]].
  - intros k Hk. apply in_map_iff in Hk as (kp & <- & Hkp).
    apply filter_In in Hkp as [Hkp _]. unfold keys. now apply in_map.
  - rewrite length_map. apply filter_length_le.
  - apply NoDup_kept.
  - intros -> w2 Hdata. rewrite filter_problems_run by discriminate.
    rewrite Hdata. reflexivity.
Qed.

Lemma filter_problems_outcome_witness :
  exists candidates,
    filter_problems None None true due_world = (Ok candidates, tick due_world)
    /\ candidates
       = keys (filter (fun kp => keeps (next_reading due_world) None None
                                   true (snd kp))
                 (problems (w_data due_world)))
    /\ incl candidates (keys (problems (w_data due_world)))
    /\ (List.length candidates
        <= List.length (problems (w_data due_world)))%nat
    /\ (NoDup (keys (problems (w_data due_world))) -> NoDup candidates)
    /\ (true = false ->
        forall w2,
          w_data w2 = w_data due_world ->
          filter_problems None None true w2 = (Ok candidates, tick w2)).
Proof.
  apply (filter_problems_outcome due_world None None true).
  - reflexivity.
  - intros _. exact due_world_parses.
Defined.

Lemma keeps_later now now' diff_filter topic_filter only_due p :
  now <= now' ->
  keeps now diff_filter topic_filter only_due p = true ->
  keeps now' diff_filter topic_filter only_due p = true.
Proof.
  intros Hle. unfold keeps. rewrite !andb_true_iff.
  intros [Hf Hdue]. split; [exact Hf |].
  destruct only_due; cbn [negb orb] in *; [| reflexivity].
  destruct (p_next_review p) as [nr |]; [| reflexivity].
  destruct (strptime nr) as [t |]; [| discriminate].
  apply negb_true_iff, Z.ltb_ge in Hdue. apply negb_true_iff, Z.ltb_ge. lia.
Qed.

Lemma keeps_without_due now diff_filter topic_filter only_due p :
  keeps now diff_filter topic_filter only_due p = true ->
  keeps now diff_filter topic_filter false p = true.
Proof.
  unfold keeps. rewrite !andb_true_iff. intros [Hf _]. now split.
Qed.

Lemma incl_kept {V} (f g : string * V -> bool) (l : list (string * V)) :
  (forall x, f x = true -> g x = true) ->
  incl (map fst (filter f l)) (map fst (filter g l)).
Proof.
  intros H k Hk. apply in_kept in Hk as (v & Hin & Hf).
  apply in_kept. exists v. auto.
Qed.

(** Whether the loop raises does not depend on the clock. *)
Lemma filter_loop_ok_later now now' diff_filter topic_filter only_due items :
  forall acc acc' r,
    filter_loop now diff_filter topic_filter only_due items acc = Ok r ->
    exists r',
      filter_loop now' diff_filter topic_filter only_due items acc' = Ok r'.
Proof.
  induction items as [| [pid p] rest IH]; intros acc acc' r.
  - cbn. intros _. now exists acc'.
  - cbn [filter_loop].
    destruct (truthy_opt diff_filter && negb _); [apply IH |].
    destruct (truthy_opt topic_filter && negb _); [apply IH |].
    destruct only_due; [| apply IH].
    destruct (p_next_review p) as [nr |]; [| apply IH].
    destruct (strptime nr) as [t |]; [| discriminate].
    destruct (now <? t), (now' <? t); apply IH.
Qed.

(** X6.  The problems that are due stay due: when [filter_problems]
    returns candidates with [only_due] set, it also returns candidates for
    the same catalog and filters at any later clock reading, and these
    include the earlier ones; and the candidates with [only_due] set are
    among the candidates of the same filters without it. *)
Theorem due_candidates_grow_with_time (w1 w2 : world)
    (diff_filter topic_filter : option string) (earlier : list string) :
  w_data w2 = w_data w1 ->
  next_reading w1 <= next_reading w2 ->
  filter_problems diff_filter topic_filter true w1 = (Ok earlier, tick w1) ->
  exists later every,
    filter_problems diff_filter topic_filter true w2 = (Ok later, tick w2)
    /\ incl earlier later
    /\ filter_problems diff_filter topic_filter false w2 = (Ok every, tick w2)
    /\ incl later every.
Proof.
  intros Hdata Hle Hrun.
  destruct (filter_problems_cases w1 diff_filter topic_filter true)
    as (r1 & E1 & H1).
  rewrite E1 in Hrun. inversion Hrun; subst r1. clear Hrun.
  destruct (filter_problems_cases w2 diff_filter topic_filter true)
    as (r2 & E2 & H2).
  destruct (filter_problems_cases w2 diff_filter topic_filter false)
    as (r3 & E3 & H3).
  destruct r3 as [every | e3]; [| destruct H3 as [H3 _]; discriminate].
  destruct r2 as [later | e2].
  - exists later, every. split; [exact E2 |].
    split; [| split; [exact E3 |]]; subst earlier later every.
    + rewrite Hdata. apply incl_kept.
      intros [k p]. cbn [snd]. now apply keeps_later.
    + apply incl_kept. intros [k p]. cbn [snd]. apply keeps_without_due.
  - exfalso. unfold filter_problems, bind, datetime_now, get_data, lift in E1, E2.
    cbn [w_data items] in E1, E2. inversion E1 as [F1]. inversion E2 as [F2].
    rewrite Hdata in F2.
    destruct (filter_loop_ok_later _ (w_clock w2 (w_reads w2)) _ _ _ _ _ []
                _ F1) as (r' & F). rewrite F in F2. discriminate.
Qed.

Lemma due_candidates_grow_with_time_witness :
  exists later every,
    filter_problems None None true due_world_next_day
    = (Ok later, tick due_world_next_day)
    /\ incl ["two-sum"; "3sum"] later
    /\ filter_problems None None false due_world_next_day
       = (Ok every, tick due_world_next_day)
    /\ incl later every.
Proof.
  apply (due_candidates_grow_with_time due_world due_world_next_day None None).
  - reflexivity.
  - vm_compute. discriminate.
  - reflexivity.
Defined.

(** ** [choose_problem] *)

Lemma read_filters_cases w :
  exists r rest,
    read_filters w = (r, set_stdin rest w)
    /\ match r with
       | Ok _ => True
       | Raise e => e = EOFError
       end.
Proof.
  unfold read_filters.
  destruct (input_run w) as (r1 & l1 & E1 & H1).
  rewrite (bind_run _ _ _ _ _ E1).
  destruct r1 as [answer | e];
    [| destruct H1 as (-> & _); now exists (Raise EOFError), l1].
  destruct (String.eqb (lower (strip answer)) "y").
  2:{ eexists (Ok _), l1. split; [reflexivity | exact I]. }
  destruct (input_run (set_stdin l1 w)) as (r2 & l2 & E2 & H2).
  rewrite (bind_run _ _ _ _ _ E2).
  destruct r2 as [diff_line | e];
    [| destruct H2 as (-> & _); now exists (Raise EOFError), l2].
  destruct (input_run (set_stdin l2 (set_stdin l1 w))) as (r3 & l3 & E3 & H3).
  rewrite (bind_run _ _ _ _ _ E3).
  destruct r3 as [topic_line | e];
    [| destruct H3 as (-> & _); now exists (Raise EOFError), l3].
  destruct (input_run (set_stdin l3 (set_stdin l2 (set_stdin l1 w))))
    as (r4 & l4 & E4 & H4).
  rewrite (bind_run _ _ _ _ _ E4).
  destruct r4 as [due_line | e];
    [| destruct H4 as (-> & _); now exists (Raise EOFError), l4].
  eexists (Ok _), l4. split; [reflexivity | exact I].
Qed.

Lemma select_candidates_cases w :
  exists r w1,
    select_candidates w = (r, w1)
    /\ w_data w1 = w_data w /\ w_clock w1 = w_clock w
    /\ match r with
       | Ok candidates =>
           incl candidates (keys (problems (w_data w)))
           /\ w_reads w1 = S (w_reads w)
       | Raise e => e = EOFError \/ exists nr, e = ValueError nr
       end.
Proof.
  unfold select_candidates.
  destruct (read_filters_cases w) as (r1 & l1 & E1 & H1).
  rewrite (bind_run _ _ _ _ _ E1).
  destruct r1 as [[[diff_filter topic_filter] only_due] | e].
  - destruct (filter_problems_cases (set_stdin l1 w) diff_filter topic_filter
                only_due) as (r2 & E2 & H2).
    exists r2, (tick (set_stdin l1 w)).
    split; [exact E2 |]. split; [reflexivity |]. split; [reflexivity |].
    destruct r2 as [candidates | e].
    + split; [| reflexivity]. subst candidates. cbn [w_data set_stdin].
      intros k Hk. apply in_map_iff in Hk as (kp & <- & Hkp).
      apply filter_In in Hkp as [Hkp _]. unfold keys. now apply in_map.
    + destruct H2 as (_ & pid & p & nr & _ & _ & _ & ->). right. now exists nr.
  - exists (Raise e), (set_stdin l1 w).
    split; [reflexivity |]. repeat split. now left.
Qed.

Lemma in_keys_get {V} k (d : dict V) :
  In k (keys d) -> exists v, get k d = Some v.
Proof.
  unfold keys. induction d as [| [k' v'] r IH]; cbn [map fst In get].
  - intros [].
  - destruct (String.eqb_spec k k') as [-> | N]; [now exists v' |].
    intros [H | H]; [congruence | now apply IH].
Qed.

Lemma get_in_keys {V} k (v : V) d : get k d = Some v -> In k (keys d).
Proof.
  intros H. apply get_in in H. unfold keys.
  change k with (fst (k, v)). now apply in_map.
Qed.

Lemma random_choice_run l w :
  l <> [] ->
  exists x w1,
    random_choice l w = (Ok x, w1) /\ In x l
    /\ w_data w1 = w_data w /\ w_clock w1 = w_clock w
    /\ w_reads w1 = w_reads w /\ w_stdin w1 = w_stdin w.
Proof.
  intros Hl. unfold random_choice. destruct l as [| x l]; [congruence |].
  eexists. eexists. split; [reflexivity |].
  split; [| repeat split].
  apply nth_In. apply Nat.mod_upper_bound. discriminate.
Qed.

(** A run of [choose_problem]. *)
Lemma choose_problem_cases w :
  exists r w1,
    choose_problem w = (r, w1)
    /\ w_data w1 = w_data w /\ w_clock w1 = w_clock w
    /\ match r with
       | Ok None =>
           problems (w_data w) = []
           \/ exists w0, select_candidates w = (Ok [], w0)
       | Ok (Some pid) =>
           w_reads w1 = S (w_reads w)
           /\ (exists p, get pid (problems (w_data w)) = Some p)
           /\ exists candidates w0,
               select_candidates w = (Ok candidates, w0) /\ In pid candidates
       | Raise e => e = EOFError \/ exists nr, e = ValueError nr
       end.
Proof.
  unfold choose_problem. unfold bind at 1. unfold get_data at 1.
  destruct (problems (w_data w)) as [| entry entries] eqn:Hcat.
  { exists (Ok None), w. repeat split. now left. }
  rewrite <- Hcat. clear entry entries Hcat.
  destruct (select_candidates_cases w) as (r1 & w1 & E1 & Hd1 & Hc1 & H1).
  rewrite (bind_run _ _ _ _ _ E1).
  destruct r1 as [candidates | e].
  2:{ exists (Raise e), w1. repeat split; assumption. }
  destruct H1 as [Hincl Hreads].
  destruct candidates as [| c cs] eqn:Hcands.
  { exists (Ok None), w1. repeat split; try assumption. right. now exists w1. }
  rewrite <- Hcands in *.
  assert (Hne : candidates <> []) by (subst; discriminate).
  replace (match candidates with
           | [] => ret None
           | _ :: _ =>
               pid <- random_choice candidates ;;
               d <- get_data ;;
               match get pid (problems d) with
               | Some _ => ret (Some pid)
               | None => raise (KeyError pid)
               end
           end)
    with (pid <- random_choice candidates ;;
          d <- get_data ;;
          match get pid (problems d) with
          | Some _ => ret (Some pid)
          | None => raise (KeyError pid)
          end)
    by (rewrite Hcands; reflexivity).
  destruct (random_choice_run candidates w1 Hne)
    as (pid & w2 & E2 & Hin & Hd2 & Hc2 & Hr2 & _).
  rewrite (bind_run _ _ _ _ _ E2).
  unfold bind, get_data. rewrite Hd2, Hd1.
  destruct (in_keys_get pid (problems (w_data w)) (Hincl pid Hin)) as (p & Hp).
  rewrite Hp. exists (Ok (Some pid)), w2.
  split; [reflexivity |]. split; [congruence |]. split; [congruence |].
  split; [congruence |]. split; [now exists p |].
  exists candidates, w1. now split.
Qed.

(** X7.  [choose_problem] leaves the data as it is and raises nothing but
    [EOFError] and the [ValueError] of the selector.  On an empty catalog
    it returns [None] without a question.  A slug that it returns is one
    of the candidates of the filters that were typed, and a key of the
    catalog: the lookup of the chosen problem never fails. *)
Theorem choose_problem_outcome (w : world) :
  (problems (w_data w) = [] -> choose_problem w = (Ok None, w))
  /\ exists r w1,
      choose_problem w = (r, w1) /\ w_data w1 = w_data w
      /\ match r with
         | Ok None =>
             problems (w_data w) = []
             \/ exists w0, select_candidates w = (Ok [], w0)
         | Ok (Some pid) =>
             (exists p, get pid (problems (w_data w)) = Some p)
             /\ exists candidates w0,
                 select_candidates w = (Ok candidates, w0)
                 /\ In pid candidates
         | Raise e => e = EOFError \/ exists nr, e = ValueError nr
         end.
Proof.
  split.
  - intros Hcat. unfold choose_problem, bind, get_data. now rewrite Hcat.
  - destruct (choose_problem_cases w) as (r & w1 & E & Hd & _ & H).
    exists r, w1. split; [exact E |]. split; [exact Hd |].
    destruct r as [[pid |] | e]; [| exact H | exact H].
    destruct H as (_ & Hp & Hc). now split.
Qed.

(** ** [start_practice_session] *)

Lemma datetime_now_run w : datetime_now w = (Ok (next_reading w), tick w).
Proof. reflexivity. Qed.

(** A run of [start_practice_session]: the data is left as it is (no
    problem is chosen, or an error is raised before the result and the
    notes are read), or one session is logged on a problem of the catalog. *)
Lemma start_practice_session_cases w :
  exists r w',
    start_practice_session w = (r, w')
    /\ w_clock w' = w_clock w
    /\ ((w_data w' = w_data w
         /\ match r with
            | Ok _ => True
            | Raise e => e = EOFError \/ exists nr, e = ValueError nr
            end)
        \/ (r = Ok tt
            /\ exists pid p status notes,
                get pid (problems (w_data w)) = Some p
                /\ In status statuses /\ strip notes = notes
                /\ w_data w'
                   = logged (w_data w) pid p
                       (w_clock w (S (w_reads w)))
                       (w_clock w (S (S (w_reads w))))
                       (w_clock w (S (S (S (w_reads w)))))
                       status notes)).
Proof.
  unfold start_practice_session.
  destruct (choose_problem_cases w) as (r0 & w1 & E0 & Hd & Hc & H0).
  rewrite (bind_run _ _ _ _ _ E0).
  destruct r0 as [[pid |] | e].
  2:{ exists (Ok tt), w1. split; [reflexivity |]. split; [exact Hc |].
      left. now split. }
  2:{ exists (Raise e), w1. split; [reflexivity |]. split; [exact Hc |].
      left. now split. }
  destruct H0 as (Hreads & (p & Hp) & _).
  rewrite (bind_run _ _ _ _ _ (datetime_now_run w1)).
  destruct (input_run (tick w1)) as (r2 & l2 & E2 & H2).
  rewrite (bind_run _ _ _ _ _ E2).
  destruct r2 as [enter | e].
  2:{ destruct H2 as (-> & _). eexists. eexists. split; [reflexivity |].
      split; [exact Hc |]. left. split; [exact Hd | now left]. }
  rewrite (bind_run _ _ _ _ _ (datetime_now_run (set_stdin l2 (tick w1)))).
  match goal with
  | |- context [input_until ?f] =>
      destruct (input_until_spec f (tick (set_stdin l2 (tick w1))))
        as (r4 & l4 & E4 & H4)
  end.
  rewrite (bind_run _ _ _ _ _ E4).
  destruct r4 as [status | e].
  2:{ destruct H4 as (-> & _). eexists. eexists. split; [reflexivity |].
      split; [exact Hc |]. left. split; [exact Hd | now left]. }
  destruct (input_run (set_stdin l4 (tick (set_stdin l2 (tick w1)))))
    as (r5 & l5 & E5 & H5).
  rewrite (bind_run _ _ _ _ _ E5).
  destruct r5 as [notes_line | e].
  2:{ destruct H5 as (-> & _). eexists. eexists. split; [reflexivity |].
      split; [exact Hc |]. left. split; [exact Hd | now left]. }
  set (w5 := set_stdin l5 (set_stdin l4 (tick (set_stdin l2 (tick w1))))).
  assert (Hp5 : get pid (problems (w_data w5)) = Some p).
  { change (w_data w5) with (w_data w1). now rewrite Hd. }
  rewrite (bind_run _ _ _ _ _
             (record_session_ok w5 pid p _ _ status (strip notes_line) Hp5)).
  eexists. eexists. split; [reflexivity |].
  split; [exact Hc |]. right. split; [reflexivity |].
  exists pid, p, status, (strip notes_line).
  split; [exact Hp |].
  split.
  { destruct H4 as (skipped & l & _ & Hl & _). cbv zeta in Hl.
    destruct (mem (lower (strip l)) ["solved"; "partial"; "unsolved"]) eqn:M;
      [| discriminate].
    inversion Hl; subst status. now apply mem_In. }
  split; [apply strip_idempotent |].
  cbn [snd set_data w_data]. unfold logged.
  change (w_data w5) with (w_data w1).
  change (next_reading w5) with (w_clock w1 (S (S (w_reads w1)))).
  change (next_reading w1) with (w_clock w1 (w_reads w1)).
  change (next_reading (set_stdin l2 (tick w1)))
    with (w_clock w1 (S (w_reads w1))).
  now rewrite Hd, Hc, Hreads.
Qed.

(** X8.  [start_practice_session] logs a session or changes nothing.  When
    it raises (nothing but [EOFError] and the [ValueError] of the
    selector) the data is as before.  When it returns, the data is as
    before, or one session on a problem of the catalog is logged: with
    one of the results "solved", "partial" and "unsolved", the second and
    the third reading of the clock in the call as its start and its end,
    and the review scheduled from the fourth reading. *)
Theorem start_practice_session_logs_or_keeps (w : world) :
  exists r w',
    start_practice_session w = (r, w')
    /\ match r with
       | Raise e =>
           w_data w' = w_data w
           /\ (e = EOFError \/ exists nr, e = ValueError nr)
       | Ok _ =>
           w_data w' = w_data w
           \/ exists pid p status notes,
               get pid (problems (w_data w)) = Some p
               /\ In status statuses /\ strip notes = notes
               /\ w_data w'
                  = logged (w_data w) pid p
                      (w_clock w (S (w_reads w)))
                      (w_clock w (S (S (w_reads w))))
                      (w_clock w (S (S (S (w_reads w)))))
                      status notes
       end.
Proof.
  destruct (start_practice_session_cases w) as (r & w' & E & _ & H).
  exists r, w'. split; [exact E |].
  destruct H as [[Hd H] | (-> & H)].
  - destruct r; [now left | now split].
  - now right.
Qed.

(** The session that is cut short: the result "done" is not accepted and
    the input ends; nothing is logged. *)
Example start_practice_session_cut_short :
  start_practice_session session_cut_short_world
  = (Raise EOFError, world_after start_practice_session session_cut_short_world)
  /\ data_after start_practice_session session_cut_short_world = one_problem.
Proof. split; vm_compute; reflexivity. Qed.

(** ** The data that the script builds *)

(** Induction over the data that the script builds, by what it stores: a
    fresh record for a slug, and a logged session on a problem of the
    catalog. *)
Lemma reachable_steps (P : data -> Prop) :
  P empty_data ->
  (forall d title slug url difficulty topics,
      P d -> slug <> EmptyString -> In difficulty difficulties ->
      Forall (fun t => t <> EmptyString /\ strip t = t) topics ->
      P (added d slug (fresh_problem title slug url difficulty topics))) ->
  (forall d pid p start_time end_time logged_at status notes,
      P d -> get pid (problems d) = Some p -> In status statuses ->
      strip notes = notes ->
      P (logged d pid p start_time end_time logged_at status notes)) ->
  forall d, reachable d -> P d.
Proof.
  intros Hempty Hadd Hlog d Hd.
  induction Hd as [| w _ IH | w _ IH].
  - exact Hempty.
  - unfold world_after.
    destruct (add_problem_cases w)
      as [E | (title & slug & url & difficulty & topics & rest & E & _ & Hs
               & _ & Hdiff & Htopics)]; rewrite E; cbn [snd].
    + exact IH.
    + cbn [set_data w_data set_stdin]. now apply Hadd.
  - unfold world_after.
    destruct (start_practice_session_cases w) as (r & w' & E & _ & H).
    rewrite E. cbn [snd].
    destruct H as [[-> _] | (_ & pid & p & status & notes & Hp & Hst & Hn & ->)].
    + exact IH.
    + now apply Hlog.
Qed.

Lemma solved_then_unsolved_reachable : reachable (w_data solved_then_unsolved).
Proof.
  exact (reach_practice_session solved_once
           (reach_practice_session problem_added
              (reach_add_problem solved_then_unsolved_world reach_empty))).
Qed.

(** X9.  In the data that the script builds, every problem is stored
    under its slug, with one of the difficulties "easy", "medium" and
    "hard", with topics that are not empty and have no white space around
    them, and with no status or one of "solved", "partial" and
    "unsolved"; every session of the log has one of these three results,
    and notes without white space around them. *)
Theorem reachable_closed_values (d : data) :
  reachable d ->
  (forall pid p,
      In (pid, p) (problems d) ->
      p_slug p = pid /\ pid <> EmptyString
      /\ In (p_difficulty p) difficulties
      /\ Forall (fun t => t <> EmptyString /\ strip t = t) (p_topics p)
      /\ forall status, p_last_status p = Some status -> In status statuses)
  /\ (forall s,
        In s (sessions d) ->
        In (s_status s) statuses /\ strip (s_notes s) = s_notes s).
Proof.
  revert d. apply reachable_steps.
  - split; [intros pid p [] | intros s []].
  - intros d title slug url difficulty topics [Hp Hs] Hslug Hdiff Htopics.
    split; [| exact Hs].
    intros pid p Hin. cbn [added problems] in Hin.
    apply in_set in Hin as [Hin | [-> ->]]; [now apply Hp |].
    cbn. repeat split; auto. discriminate.
  - intros d pid p start_time end_time logged_at status notes [Hp Hs]
      Hget Hstatus Hnotes.
    split.
    + intros k q Hin. cbn [logged problems] in Hin.
      apply in_set in Hin as [Hin | [-> ->]]; [now apply Hp |].
      destruct (Hp pid p (get_in _ _ _ Hget)) as (H1 & H2 & H3 & H4 & _).
      cbn. repeat split; auto. intros st E. now inversion E; subst.
    + intros s Hin. cbn [logged sessions] in Hin.
      apply in_app_or in Hin as [Hin | [<- | []]]; [now apply Hs |].
      cbn. now split.
Qed.

Lemma reachable_closed_values_witness :
  Forall (fun s => In (s_status s) statuses)
    (sessions (w_data solved_then_unsolved)).
Proof.
  destruct (reachable_closed_values (w_data solved_then_unsolved)
              solved_then_unsolved_reachable) as [_ Hs].
  apply Forall_forall. intros s Hin. exact (proj1 (Hs s Hin)).
Defined.

Lemma get_none_not_in_keys {V} k (d : dict V) :
  get k d = None -> ~ In k (keys d).
Proof.
  intros H Hin. apply in_keys_get in Hin as (v & Hv). congruence.
Qed.

Lemma keys_set_incl {V} k (v : V) d k' :
  In k' (keys d) -> In k' (keys (set k v d)).
Proof.
  intros Hin. destruct (get k d) as [v0 |] eqn:G.
  - now rewrite (keys_set_present _ _ _ _ G).
  - rewrite (keys_set_absent _ _ _ G). apply in_or_app. now left.
Qed.

Lemma NoDup_keys_set {V} k (v : V) d :
  NoDup (keys d) -> NoDup (keys (set k v d)).
Proof.
  intros H. destruct (get k d) as [v0 |] eqn:G.
  - now rewrite (keys_set_present _ _ _ _ G).
  - rewrite (keys_set_absent _ _ _ G).
    apply NoDup_app; [exact H | repeat constructor; intros [] |].
    intros x Hx [<- | []]. now apply (get_none_not_in_keys _ _ G).
Qed.

(** X10.  In the data that the script builds the keys of the catalog are
    distinct, and every session of the log is a session on a problem of
    the catalog. *)
Theorem reachable_log_refers_to_catalog (d : data) :
  reachable d ->
  NoDup (keys (problems d))
  /\ forall s, In s (sessions d) -> In (s_problem_id s) (keys (problems d)).
Proof.
  revert d. apply reachable_steps.
  - split; [constructor | intros s []].
  - intros d title slug url difficulty topics [Hk Hs] _ _ _.
    cbn [added problems sessions]. split; [now apply NoDup_keys_set |].
    intros s Hin. apply keys_set_incl. now apply Hs.
  - intros d pid p start_time end_time logged_at status notes [Hk Hs]
      Hget _ _.
    cbn [logged problems sessions]. split; [now apply NoDup_keys_set |].
    intros s Hin. apply keys_set_incl.
    apply in_app_or in Hin as [Hin | [<- | []]]; [now apply Hs |].
    cbn [logged_session s_problem_id]. eapply get_in_keys, Hget.
Qed.

Lemma reachable_log_refers_to_catalog_witness :
  NoDup (keys (problems (w_data solved_then_unsolved)))
  /\ Forall (fun s => In (s_problem_id s)
                        (keys (problems (w_data solved_then_unsolved))))
       (sessions (w_data solved_then_unsolved)).
Proof.
  destruct (reachable_log_refers_to_catalog (w_data solved_then_unsolved)
              solved_then_unsolved_reachable) as [Hk Hs].
  split; [exact Hk |]. apply Forall_forall. exact Hs.
Defined.

Lemma sessions_of_app pid log s :
  sessions_of pid (log ++ [s])
  = (sessions_of pid log
     ++ if String.eqb (s_problem_id s) pid then [s] else [])%list.
Proof.
  unfold sessions_of. rewrite filter_app. cbn [filter].
  destruct (String.eqb (s_problem_id s) pid); reflexivity.
Qed.

Lemma latest_app log s : latest (log ++ [s]) = Some s.
Proof. unfold latest. rewrite rev_app_distr. reflexivity. Qed.

(** X11.  In the data that the script builds, the attempts of a problem
    are at most the sessions of the log on it, and a problem without
    status has no attempt; the status and the date of the last practice of
    a problem are the result and the end of the latest session of the log
    on it. *)
Theorem reachable_problem_matches_log (d : data) (pid : string) (p : problem) :
  reachable d ->
  get pid (problems d) = Some p ->
  0 <= p_attempts p <= Z.of_nat (List.length (sessions_of pid (sessions d)))
  /\ match p_last_status p with
     | None => p_attempts p = 0
     | Some status =>
         exists s,
           latest (sessions_of pid (sessions d)) = Some s
           /\ s_status s = status
           /\ p_last_practiced p = Some (s_end s)
     end.
Proof.
  intros Hd. revert pid p. revert d Hd.
  apply (reachable_steps
           (fun d =>
              forall pid p,
                get pid (problems d) = Some p ->
                0 <= p_attempts p
                <= Z.of_nat (List.length (sessions_of pid (sessions d)))
                /\ match p_last_status p with
                   | None => p_attempts p = 0
                   | Some status =>
                       exists s,
                         latest (sessions_of pid (sessions d)) = Some s
                         /\ s_status s = status
                         /\ p_last_practiced p = Some (s_end s)
                   end)).
  - intros pid p. discriminate.
  - intros d title slug url difficulty topics IH _ _ _ pid p.
    cbn [added problems sessions].
    destruct (String.eqb_spec pid slug) as [-> | N].
    + rewrite get_set_same. intros E. inversion E; subst p. cbn.
      split; [lia | reflexivity].
    + rewrite get_set_other by exact N. apply IH.
  - intros d k q start_time end_time logged_at status notes IH Hget _ _ pid p.
    cbn [logged problems sessions]. rewrite sessions_of_app.
    cbn [logged_session s_problem_id].
    destruct (String.eqb_spec k pid) as [-> | N].
    + rewrite get_set_same. intros E. inversion E; subst p.
      destruct (IH pid q Hget) as [Hatt _].
      unfold logged_problem.
      cbn [p_attempts p_last_status p_last_practiced].
      rewrite length_app. cbn [List.length]. split; [lia |].
      eexists. split; [apply latest_app |]. split; reflexivity.
    + rewrite get_set_other by congruence. rewrite app_nil_r. apply IH.
Qed.

Lemma reachable_problem_matches_log_witness :
  exists p s,
    get "two-sum" (problems (w_data solved_then_unsolved)) = Some p
    /\ latest (sessions_of "two-sum" (sessions (w_data solved_then_unsolved)))
       = Some s
    /\ p_last_status p = Some (s_status s)
    /\ p_attempts p <= 2.
Proof.
  destruct (get "two-sum" (problems (w_data solved_then_unsolved)))
    as [p |] eqn:G; [| vm_compute in G; discriminate G].
  destruct (reachable_problem_matches_log (w_data solved_then_unsolved)
              "two-sum" p solved_then_unsolved_reachable G) as [Hatt Hlast].
  assert (Hst : p_last_status p = Some "unsolved").
  { vm_compute in G. inversion G. reflexivity. }
  rewrite Hst in Hlast. destruct Hlast as (s & Hs & Hstatus & _).
  exists p, s. split; [reflexivity |]. split; [exact Hs |].
  split; [now rewrite Hst, Hstatus |].
  replace 2 with (Z.of_nat
                    (List.length
                       (sessions_of "two-sum"
                          (sessions (w_data solved_then_unsolved)))))
    by (vm_compute; reflexivity).
  apply Hatt.
Defined.

(** ** What the script never removes *)

Section Growth.

Lemma is_prefix_refl {A} (l : list A) : is_prefix l l.
Proof. exists []. now rewrite app_nil_r. Qed.

Lemma is_prefix_trans {A} (l1 l2 l3 : list A) :
  is_prefix l1 l2 -> is_prefix l2 l3 -> is_prefix l1 l3.
Proof.
  intros [t ->] [t' ->]. exists (t ++ t')%list. now rewrite app_assoc.
Qed.

Lemma extends_refl d : extends d d.
Proof. split; apply is_prefix_refl. Qed.

Lemma extends_trans d1 d2 d3 : extends d1 d2 -> extends d2 d3 -> extends d1 d3.
Proof.
  intros [H1 H2] [H3 H4]. split; eapply is_prefix_trans; eauto.
Qed.

Lemma extends_added d slug p : extends d (added d slug p).
Proof.
  split; cbn [added problems sessions]; [| apply is_prefix_refl].
  destruct (get slug (problems d)) as [old |] eqn:G.
  - rewrite (keys_set_present _ _ _ _ G). apply is_prefix_refl.
  - rewrite (keys_set_absent _ _ _ G). now exists [slug].
Qed.

Lemma extends_logged d pid p start_time end_time logged_at status notes :
  get pid (problems d) = Some p ->
  extends d (logged d pid p start_time end_time logged_at status notes).
Proof.
  intros G. split; cbn [logged problems sessions].
  - rewrite (keys_set_present _ _ _ _ G). apply is_prefix_refl.
  - now eexists.
Qed.

Lemma grows_reads_only {A} (m : M A) : reads_only m -> grows m.
Proof. intros H w. rewrite H. apply extends_refl. Qed.

Lemma grows_bind {A B} (m : M A) (k : A -> M B) :
  grows m -> (forall a, grows (k a)) -> grows (bind m k).
Proof.
  intros Hm Hk w. specialize (Hm w).
  unfold data_after, world_after, bind in *.
  destruct (m w) as [[a | e] w1]; cbn [snd] in *; [| exact Hm].
  eapply extends_trans; [exact Hm | apply Hk].
Qed.

Lemma grows_add_problem : grows add_problem.
Proof.
  intros w. unfold data_after, world_after.
  destruct (add_problem_cases w)
    as [E | (title & slug & url & difficulty & topics & rest & E & _)];
    rewrite E; cbn [snd set_data w_data set_stdin].
  - apply extends_refl.
  - apply extends_added.
Qed.

Lemma grows_start_practice_session : grows start_practice_session.
Proof.
  intros w. unfold data_after, world_after.
  destruct (start_practice_session_cases w) as (r & w' & E & _ & H).
  rewrite E. cbn [snd].
  destruct H as [[-> _] | (_ & pid & p & status & notes & Hp & _ & _ & ->)].
  - apply extends_refl.
  - now apply extends_logged.
Qed.

Lemma grows_main_menu_loop turns : grows (main_menu_loop turns).
Proof.
  induction turns as [| turns IH]; cbn [main_menu_loop].
  - apply grows_reads_only, reads_only_raise.
  - apply grows_bind; [apply grows_reads_only, reads_only_input | intros line].
    destruct (String.eqb (strip line) "1");
      [apply grows_bind; [apply grows_add_problem | intros _; exact IH] |].
    destruct (String.eqb (strip line) "2").
    { apply grows_bind; [| intros _; exact IH].
      apply grows_reads_only. unfold list_problems. reads_only. }
    destruct (String.eqb (strip line) "3");
      [apply grows_bind;
       [apply grows_start_practice_session | intros _; exact IH] |].
    destruct (String.eqb (strip line) "4").
    { apply grows_bind; [| intros _; exact IH].
      apply grows_reads_only, reads_only_stats_overview. }
    destruct (String.eqb (strip line) "5"); [| exact IH].
    apply grows_reads_only, reads_only_ret.
Qed.

End Growth.

(** X12.  Nothing that the script does removes a problem or a session, or
    changes a session of the log: after [add_problem], after
    [start_practice_session] and after a whole run of [main_menu], however
    they end, the keys of the catalog begin with the keys before, in the
    same order, and the session log begins with the log before. *)
Theorem script_only_appends (w : world) :
  extends (w_data w) (data_after add_problem w)
  /\ extends (w_data w) (data_after start_practice_session w)
  /\ extends (w_data w) (data_after main_menu w).
Proof.
  split; [apply grows_add_problem |].
  split; [apply grows_start_practice_session |].
  apply (grows_main_menu_loop (S (List.length (w_stdin w)))).
Qed.

(** ** [main_menu] *)



Lemma preserves_main_menu (P : data -> Prop) :
  preserves P add_problem -> preserves P start_practice_session ->
  preserves P main_menu.
Proof.
  intros Hadd Hsession.
  assert (Hloop : forall turns, preserves P (main_menu_loop turns)).
  { induction turns as [| turns IH]; cbn [main_menu_loop].
    - apply preserves_reads_only, reads_only_raise.
    - apply preserves_bind;
        [apply preserves_reads_only, reads_only_input | intros line].
      destruct (String.eqb (strip line) "1");
        [apply preserves_bind; [exact Hadd | intros _; exact IH] |].
      destruct (String.eqb (strip line) "2").
      { apply preserves_bind; [| intros _; exact IH].
        apply preserves_reads_only. unfold list_problems. reads_only. }
      destruct (String.eqb (strip line) "3");
        [apply preserves_bind; [exact Hsession | intros _; exact IH] |].
      destruct (String.eqb (strip line) "4").
      { apply preserves_bind; [| intros _; exact IH].
        apply preserves_reads_only, reads_only_stats_overview. }
      destruct (String.eqb (strip line) "5"); [| exact IH].
      apply preserves_reads_only, reads_only_ret. }
  intros w Hw. apply (Hloop _ w Hw).
Qed.

(** X14.  A whole run of [main_menu] on data that the script has built
    ends, with a return or with an error, on data that the script can
    build, on which the invariant of the problem records holds. *)
Theorem main_menu_keeps_reachable (w : world) :
  reachable (w_data w) ->
  reachable (data_after main_menu w) /\ data_inv (data_after main_menu w).
Proof.
  intros Hw.
  assert (H : reachable (data_after main_menu w)).
  { apply preserves_main_menu; [| | exact Hw].
    - intros w0 H0. now apply reach_add_problem.
    - intros w0 H0. now apply reach_practice_session. }
  split; [exact H |].
  revert H. apply reachable_all_problems.
  - intros. apply problem_inv_fresh.
  - intros pid p status end_time logged_at. apply problem_inv_logged.
Qed.

Lemma main_menu_keeps_reachable_witness :
  reachable (data_after main_menu menu_world)
  /\ data_inv (data_after main_menu menu_world).
Proof.
  apply (main_menu_keeps_reachable menu_world). exact reach_empty.
Defined.

(** The run of the example: the problem is stored and the menu returns. *)
Example main_menu_example :
  value_of main_menu menu_world = Ok tt
  /\ keys (problems (data_after main_menu menu_world)) = ["two-sum"]
  /\ w_stdin (world_after main_menu menu_world) = [].
Proof. repeat split; vm_compute; reflexivity. Qed.

(** ** The interval of a review *)

Lemma review_delta_cases status difficulty :
  (review_delta status difficulty = days 1
   \/ review_delta status difficulty = days 2
   \/ review_delta status difficulty = days 3)
  /\ (review_delta status difficulty <> days 1 ->
      exists s, status = Some s /\ lower s = "solved"
                /\ (difficulty = "easy" \/ difficulty = "medium")).
Proof.
  unfold review_delta.
  destruct (String.eqb_spec
              (lower match status with Some s => s | None => "" end) "solved")
    as [E | N].
  - destruct (String.eqb_spec difficulty "easy") as [-> | N1].
    + split; [auto |]. intros _. destruct status as [s |];
        [now exists s; auto | discriminate E].
    + destruct (String.eqb_spec difficulty "medium") as [-> | N2].
      * split; [auto |]. intros _. destruct status as [s |];
          [now exists s; auto | discriminate E].
      * split; [auto | congruence].
  - split; [auto | congruence].
Qed.

(** X15.  For every status, also a missing one, one in capitals and one
    that is not a result, and for every difficulty, [schedule_next_review]
    returns the timestamp of the clock reading plus one, two or three
    days, more than one day only for a status that is "solved" up to case
    and the difficulty "easy" or "medium".  So the review is never
    scheduled at or before the clock reading, and never more than three
    days after it. *)
Theorem schedule_next_review_bounds (w : world) (status : option string)
    (difficulty : string) :
  min_fmt <= next_reading w -> next_reading w + days 3 < max_fmt ->
  exists delta t,
    schedule_next_review status difficulty w
    = (Ok (strftime (next_reading w + delta)), tick w)
    /\ (delta = days 1 \/ delta = days 2 \/ delta = days 3)
    /\ (delta <> days 1 ->
        exists s, status = Some s /\ lower s = "solved"
                  /\ (difficulty = "easy" \/ difficulty = "medium"))
    /\ strptime (strftime (next_reading w + delta)) = Some t
    /\ next_reading w < t <= next_reading w + days 3.
Proof.
  intros Hlo Hhi.
  destruct (review_delta_cases status difficulty) as [Hdelta Hwhy].
  exists (review_delta status difficulty),
    (whole_second (next_reading w + review_delta status difficulty)).
  split; [apply schedule_next_review_run |].
  split; [exact Hdelta |]. split; [exact Hwhy |].
  assert (Hdays : days 1 <= review_delta status difficulty <= days 3).
  { destruct Hdelta as [-> | [-> | ->]]; vm_compute; split; discriminate. }
  split.
  - apply strptime_strftime.
    unfold days, us_per_day, us_per_second in *. lia.
  - unfold whole_second.
    pose proof (Z.div_mod (next_reading w + review_delta status difficulty)
                  us_per_second ltac:(discriminate)) as E.
    pose proof (Z.mod_pos_bound
                  (next_reading w + review_delta status difficulty)
                  us_per_second ltac:(reflexivity)) as B.
    unfold days, us_per_day, us_per_second in *. lia.
Qed.

Lemma schedule_next_review_bounds_witness :
  exists delta t,
    schedule_next_review (Some "SOLVED") "Easy" prompt_log_world
    = (Ok (strftime (next_reading prompt_log_world + delta)),
       tick prompt_log_world)
    /\ (delta = days 1 \/ delta = days 2 \/ delta = days 3)
    /\ (delta <> days 1 ->
        exists s, Some "SOLVED" = Some s /\ lower s = "solved"
                  /\ ("Easy" = "easy" \/ "Easy" = "medium"))
    /\ strptime (strftime (next_reading prompt_log_world + delta)) = Some t
    /\ next_reading prompt_log_world < t
       <= next_reading prompt_log_world + days 3.
Proof.
  apply (schedule_next_review_bounds prompt_log_world (Some "SOLVED") "Easy").
  - vm_compute. discriminate.
  - vm_compute. reflexivity.
Defined.

(** The status is read without its case, the difficulty with it: a solved
    problem of difficulty "Easy" is scheduled as a hard one. *)
Example schedule_next_review_capitals :
  value_of (schedule_next_review (Some "SOLVED") "easy") prompt_log_world
  = Ok "2024-01-04 10:20:00"
  /\ value_of (schedule_next_review (Some "solved") "Easy") prompt_log_world
     = Ok "2024-01-02 10:20:00".
Proof. split; vm_compute; reflexivity. Qed.

(** ** The selector on what the recorder stores *)

(** X16.  After a session is recorded on a problem of the catalog, with
    one of the results and difficulties of the table and the clock in the
    years of four digits, the problem is due exactly from the timestamp of
    the reading at which the session was logged plus the interval of the
    table: it is not due at that reading, nor a day less a second later,
    and it is due three days later. *)
Theorem logged_problem_due_after_interval (w : world) (pid : string)
    (p : problem) (start_time end_time : datetime) (status notes : string)
    (n : Z) :
  get pid (problems (w_data w)) = Some p ->
  In (status, p_difficulty p, n) review_table ->
  min_fmt <= next_reading w -> next_reading w + days 3 < max_fmt ->
  exists s w' p',
    record_session pid start_time end_time status notes w = (Ok s, w')
    /\ get pid (problems (w_data w')) = Some p'
    /\ (forall now,
          is_due now p' <-> whole_second (next_reading w) + days n <= now)
    /\ ~ is_due (next_reading w + days 1 - us_per_second) p'
    /\ is_due (next_reading w + days 3) p'.
Proof.
  intros Hget Htable Hlo Hhi.
  assert (Hn : 1 <= n <= 3).
  { unfold review_table in Htable. cbn [In] in Htable.
    repeat (destruct Htable as [E | Htable]; [inversion E; lia |]).
    destruct Htable. }
  eexists. eexists. eexists.
  split; [apply (record_session_ok _ _ _ _ _ _ _ Hget) |].
  cbn [set_data w_data problems].
  split; [apply get_set_same |].
  assert (Hparse : strptime (strftime (next_reading w + days n))
                   = Some (whole_second (next_reading w) + days n)).
  { rewrite <- whole_second_add_days. apply strptime_strftime.
    unfold days, us_per_day, us_per_second in *. lia. }
  assert (Hdue : forall now,
             is_due now (logged_problem p status end_time (next_reading w))
             <-> whole_second (next_reading w) + days n <= now).
  { intros now. unfold is_due, logged_problem. cbn [p_next_review].
    rewrite (review_delta_table _ _ _ Htable). split.
    - intros [H | (nr & t & E & P & L)]; [discriminate |].
      inversion E; subst nr. rewrite Hparse in P. inversion P; subst t.
      exact L.
    - intros L. right. eexists. eexists.
      split; [reflexivity |]. split; [exact Hparse | exact L]. }
  split; [exact Hdue |].
  pose proof (Z.div_mod (next_reading w) us_per_second ltac:(discriminate))
    as E.
  pose proof (Z.mod_pos_bound (next_reading w) us_per_second
                ltac:(reflexivity)) as B.
  split.
  - rewrite Hdue. unfold whole_second, days, us_per_day, us_per_second in *.
    lia.
  - apply Hdue. unfold whole_second, days, us_per_day, us_per_second in *.
    lia.
Qed.

Lemma logged_problem_due_after_interval_witness :
  exists s w' p',
    record_session "two-sum" t_start t_end "solved" "" prompt_log_world
    = (Ok s, w')
    /\ get "two-sum" (problems (w_data w')) = Some p'
    /\ ~ is_due (t_end + days 1 - us_per_second) p'
    /\ is_due (t_end + days 3) p'.
Proof.
  destruct (logged_problem_due_after_interval prompt_log_world "two-sum"
              two_sum t_start t_end "solved" "" 3)
    as (s & w' & p' & Hrun & Hget & _ & Hnot & Hdue).
  - reflexivity.
  - cbn. auto.
  - vm_compute. discriminate.
  - vm_compute. reflexivity.
  - exists s, w', p'. repeat split; assumption.
Defined.

(** ** Timestamps that the script writes and reads *)

Section Sane.

Lemma maintains_bind {A B} P (m : M A) (k : A -> M B) :
  maintains P m -> (forall a, maintains P (k a)) -> maintains P (bind m k).
Proof.
  intros Hm Hk w Hw. specialize (Hm w Hw).
  unfold world_after, bind in *.
  destruct (m w) as [[a | e] w1]; cbn [snd] in *; [apply Hk, Hm | exact Hm].
Qed.

Lemma timestamps_parse_added d slug title url difficulty topics :
  timestamps_parse d ->
  timestamps_parse (added d slug (fresh_problem title slug url difficulty topics)).
Proof.
  intros H pid p nr Hin. cbn [added problems] in Hin.
  apply in_set in Hin as [Hin | [-> ->]]; [now apply (H pid) | discriminate].
Qed.

Lemma timestamps_parse_logged d pid p start_time end_time logged_at status
    notes :
  min_fmt <= logged_at -> logged_at + days 3 < max_fmt ->
  timestamps_parse d ->
  timestamps_parse
    (logged d pid p start_time end_time logged_at status notes).
Proof.
  intros Hlo Hhi H k q nr Hin. cbn [logged problems] in Hin.
  apply in_set in Hin as [Hin | [-> ->]]; [now apply (H k) |].
  unfold logged_problem. cbn [p_next_review]. intros E. inversion E.
  rewrite strptime_strftime; [discriminate |].
  destruct (review_delta_cases (Some status) (p_difficulty p))
    as [[-> | [-> | ->]] _];
    unfold days, us_per_day, us_per_second in *; lia.
Qed.

Lemma maintains_sane_input : maintains sane input.
Proof.
  intros w Hw. unfold world_after.
  destruct (input_run w) as (r & rest & E & _). rewrite E. exact Hw.
Qed.

Lemma maintains_sane_add_problem : maintains sane add_problem.
Proof.
  intros w [Hc Hp]. unfold world_after.
  destruct (add_problem_cases w)
    as [E | (title & slug & url & difficulty & topics & rest & E & _)];
    rewrite E; cbn [snd].
  - now split.
  - split; [exact Hc |]. cbn [set_data w_data set_stdin].
    now apply timestamps_parse_added.
Qed.

Lemma maintains_sane_start_practice_session :
  maintains sane start_practice_session.
Proof.
  intros w [Hc Hp]. unfold world_after.
  destruct (start_practice_session_cases w) as (r & w' & E & Hclock & H).
  rewrite E. cbn [snd].
  split; [unfold clock_in_range; now rewrite Hclock |].
  destruct H as [[-> _] | (_ & pid & p & status & notes & _ & _ & _ & ->)];
    [exact Hp |].
  apply timestamps_parse_logged; [apply Hc | apply Hc | exact Hp].
Qed.

Lemma maintains_sane_main_menu_loop turns :
  maintains sane (main_menu_loop turns).
Proof.
  induction turns as [| turns IH]; cbn [main_menu_loop].
  - intros w Hw. exact Hw.
  - apply maintains_bind; [apply maintains_sane_input | intros line].
    destruct (String.eqb (strip line) "1");
      [apply maintains_bind;
       [apply maintains_sane_add_problem | intros _; exact IH] |].
    destruct (String.eqb (strip line) "2").
    { apply maintains_bind; [| intros _; exact IH]. intros w Hw. exact Hw. }
    destruct (String.eqb (strip line) "3");
      [apply maintains_bind;
       [apply maintains_sane_start_practice_session | intros _; exact IH] |].
    destruct (String.eqb (strip line) "4").
    { apply maintains_bind; [| intros _; exact IH]. intros w Hw.
      unfold world_after. destruct (stats_overview_run w) as (s & E & _).
      now rewrite E. }
    destruct (String.eqb (strip line) "5"); [| exact IH].
    intros w Hw. exact Hw.
Qed.

End Sane.

(** X17.  While the clock reads instants of the years of four digits
    (three days before their end at the latest), every [next_review] that
    the script stores is a timestamp that it can read back: when the
    stored timestamps parse before a practice session or a whole run of
    the menu, they parse after it, and [filter_problems] returns
    candidates, whatever the filters, and does not raise. *)
Theorem stored_timestamps_parse (w : world) :
  clock_in_range w -> timestamps_parse (w_data w) ->
  timestamps_parse (data_after start_practice_session w)
  /\ timestamps_parse (data_after main_menu w)
  /\ forall diff_filter topic_filter only_due,
      exists candidates,
        filter_problems diff_filter topic_filter only_due w
        = (Ok candidates, tick w).
Proof.
  intros Hc Hp.
  split; [apply (maintains_sane_start_practice_session w); now split |].
  split.
  { apply (maintains_sane_main_menu_loop (S (List.length (w_stdin w))) w).
    now split. }
  intros diff_filter topic_filter only_due. eexists.
  apply filter_problems_run. intros _. exact Hp.
Qed.

Lemma clock_of_single t k : clock_of [t] k = t.
Proof. unfold clock_of. destruct k as [| [| k]]; reflexivity. Qed.

Lemma stored_timestamps_parse_witness :
  timestamps_parse (data_after start_practice_session practice_menu_world)
  /\ timestamps_parse (data_after main_menu practice_menu_world)
  /\ exists candidates,
      filter_problems None None true practice_menu_world
      = (Ok candidates, tick practice_menu_world).
Proof.
  destruct (stored_timestamps_parse practice_menu_world) as (H1 & H2 & H3).
  - intros k. unfold practice_menu_world, example_world. cbn [w_clock].
    rewrite clock_of_single. split; vm_compute; [discriminate | reflexivity].
  - intros pid p nr [].
  - split; [exact H1 |]. split; [exact H2 |]. apply H3.
Defined.

(** The run of the example: the problem is solved at 10:00:00, so it is
    due three days later and the second session, with the filter for due
    problems, finds no candidate. *)
Example practice_menu_example :
  value_of main_menu practice_menu_world = Ok tt
  /\ map (fun kp => (fst kp, p_attempts (snd kp), p_next_review (snd kp)))
       (problems (data_after main_menu practice_menu_world))
     = [("two-sum", 1, Some "2024-01-04 10:00:00")].
Proof. split; vm_compute; reflexivity. Qed.

(** ** [stats_overview] *)

Section StatsFacts.

Lemma stats_step_by_difficulty a b c n p :
  fst (stats_step ([("easy", a); ("medium", b); ("hard", c)], n) p)
  = [("easy", a + if String.eqb (p_difficulty p) "easy" then 1 else 0);
     ("medium", b + if String.eqb (p_difficulty p) "medium" then 1 else 0);
     ("hard", c + if String.eqb (p_difficulty p) "hard" then 1 else 0)].
Proof.
  unfold stats_step. cbn [fst get].
  destruct (String.eqb_spec (p_difficulty p) "easy") as [E | N1].
  { rewrite E. cbn. now rewrite !Z.add_0_r. }
  destruct (String.eqb_spec (p_difficulty p) "medium") as [E | N2].
  { rewrite E. cbn. now rewrite !Z.add_0_r. }
  destruct (String.eqb_spec (p_difficulty p) "hard") as [E | N3].
  { rewrite E. cbn. now rewrite !Z.add_0_r. }
  now rewrite !Z.add_0_r.
Qed.

Lemma stats_fold_by_difficulty l :
  forall a b c n,
    fst (fold_left stats_step l
           ([("easy", a); ("medium", b); ("hard", c)], n))
    = [("easy",
        a + Z.of_nat (List.length
                        (filter (fun p => String.eqb (p_difficulty p) "easy") l)));
       ("medium",
        b + Z.of_nat (List.length
                        (filter (fun p => String.eqb (p_difficulty p) "medium")
                           l)));
       ("hard",
        c + Z.of_nat (List.length
                        (filter (fun p => String.eqb (p_difficulty p) "hard")
                           l)))].
Proof.
  induction l as [| p l IH]; intros a b c n.
  - cbn. now rewrite !Z.add_0_r.
  - cbn [fold_left filter].
    pose proof (stats_step_by_difficulty a b c n p) as Hstep.
    destruct (stats_step _ p) as [by_diff m]. cbn [fst] in Hstep.
    rewrite Hstep, IH.
    destruct (String.eqb (p_difficulty p) "easy"),
      (String.eqb (p_difficulty p) "medium"),
      (String.eqb (p_difficulty p) "hard");
      cbn [List.length];
      (f_equal; [f_equal; lia | f_equal; [f_equal; lia | f_equal; f_equal; lia]]).
Qed.

Lemma count_by_difficulty_le (l : list problem) :
  (List.length (filter (fun p => String.eqb (p_difficulty p) "easy") l)
   + List.length (filter (fun p => String.eqb (p_difficulty p) "medium") l)
   + List.length (filter (fun p => String.eqb (p_difficulty p) "hard") l)
   <= List.length l)%nat
  /\ (Forall (fun p => In (p_difficulty p) difficulties) l ->
      (List.length (filter (fun p => String.eqb (p_difficulty p) "easy") l)
       + List.length (filter (fun p => String.eqb (p_difficulty p) "medium") l)
       + List.length (filter (fun p => String.eqb (p_difficulty p) "hard") l)
       = List.length l)%nat).
Proof.
  induction l as [| p l [IH1 IH2]]; [split; reflexivity |].
  cbn [filter].
  destruct (String.eqb_spec (p_difficulty p) "easy") as [E | N1].
  { rewrite E. change (String.eqb "easy" "medium") with false.
    change (String.eqb "easy" "hard") with false. cbn [List.length].
    split; [lia |]. intros HF. inversion HF; subst. specialize (IH2 H2). lia. }
  destruct (String.eqb_spec (p_difficulty p) "medium") as [E | N2].
  { rewrite E. change (String.eqb "medium" "hard") with false.
    cbn [List.length].
    split; [lia |]. intros HF. inversion HF; subst. specialize (IH2 H2). lia. }
  destruct (String.eqb_spec (p_difficulty p) "hard") as [E | N3].
  { cbn [List.length].
    split; [lia |]. intros HF. inversion HF; subst. specialize (IH2 H2). lia. }
  cbn [List.length]. split; [lia |].
  intros HF. inversion HF as [| ? ? Hp Hl]; subst.
  unfold difficulties in Hp. cbn [In] in Hp.
  destruct Hp as [Hp | [Hp | [Hp | []]]]; congruence.
Qed.

Lemma reachable_difficulties d :
  reachable d ->
  Forall (fun p => In (p_difficulty p) difficulties) (values (problems d)).
Proof.
  intros Hd.
  assert (H : all_problems (fun _ p => In (p_difficulty p) difficulties) d).
  { revert d Hd. apply reachable_steps.
    - intros pid p [].
    - intros d title slug url difficulty topics IH _ Hdiff _ pid p Hin.
      cbn [added problems] in Hin.
      apply in_set in Hin as [Hin | [-> ->]]; [now apply (IH pid) | exact Hdiff].
    - intros d k q start_time end_time logged_at status notes IH Hget _ _
        pid p Hin.
      cbn [logged problems] in Hin.
      apply in_set in Hin as [Hin | [-> ->]]; [now apply (IH pid) |].
      apply (IH k q). now apply get_in. }
  apply Forall_forall. intros p Hin. unfold values in Hin.
  apply in_map_iff in Hin as ([pid q] & <- & Hin). now apply (H pid).
Qed.

End StatsFacts.

(** X18.  [stats_overview] reports for "easy", "medium" and "hard", in
    this order, the number of problems of the catalog with that
    difficulty; a problem with another difficulty is counted in the total
    only, so the three numbers add up to the total at most, and to the
    total exactly on the data that the script builds. *)
Theorem stats_counts_by_difficulty (w : world) :
  exists s,
    stats_overview w = (Ok s, w)
    /\ by_difficulty s
       = [("easy", count_difficulty "easy" (w_data w));
          ("medium", count_difficulty "medium" (w_data w));
          ("hard", count_difficulty "hard" (w_data w))]
    /\ count_difficulty "easy" (w_data w)
       + count_difficulty "medium" (w_data w)
       + count_difficulty "hard" (w_data w) <= total_problems s
    /\ (reachable (w_data w) ->
        count_difficulty "easy" (w_data w)
        + count_difficulty "medium" (w_data w)
        + count_difficulty "hard" (w_data w) = total_problems s).
Proof.
  unfold stats_overview, bind, get_data, ret.
  pose proof (stats_fold_by_difficulty (values (problems (w_data w))) 0 0 0 0)
    as F.
  destruct (fold_left _ _ _) as [by_diff count]. cbn [fst] in F.
  eexists. split; [reflexivity |].
  cbn [by_difficulty total_problems]. split; [exact F |].
  unfold count_difficulty.
  destruct (count_by_difficulty_le (values (problems (w_data w))))
    as [Hle Heq].
  unfold values in *. rewrite length_map in *.
  split; [lia |].
  intros Hd. specialize (Heq (reachable_difficulties _ Hd)). lia.
Qed.

(** X19.  The sessions that [stats_overview] lists are the last sessions
    of the log, in the order of the log: all when there are at most five,
    and the five latest ones otherwise. *)
Theorem stats_lists_last_five_sessions (w : world) :
  exists s older,
    stats_overview w = (Ok s, w)
    /\ sessions (w_data w) = (older ++ last_sessions s)%list
    /\ List.length (last_sessions s)
       = Nat.min 5 (List.length (sessions (w_data w))).
Proof.
  destruct (stats_overview_run w) as (s & Hrun & _ & _ & _ & Hlast).
  exists s, (firstn (List.length (sessions (w_data w)) - 5)
               (sessions (w_data w))).
  split; [exact Hrun |]. rewrite Hlast. unfold last_n. split.
  - now rewrite firstn_skipn.
  - rewrite length_skipn. lia.
Qed.

(** ** The filters that are typed *)



(** X21.  Unless the answer to the first question, an ASCII text, is "y"
    in either case and with any white space around it, no other question
    is asked, and every problem of the catalog is a candidate, in the
    order of the catalog. *)
Theorem no_filters_unless_yes (w : world) (answer : string)
    (rest : list string) :
  isascii answer = true ->
  w_stdin w = answer :: rest ->
  lower (strip answer) <> "y" ->
  select_candidates w
  = (Ok (keys (problems (w_data w))), tick (set_stdin rest w)).
Proof.
  intros _ Hin Hno.
  assert (R : read_filters w = (Ok (None, None, false), set_stdin rest w)).
  { unfold read_filters. rewrite bind_input, Hin.
    destruct (String.eqb_spec (lower (strip answer)) "y");
      [contradiction | reflexivity]. }
  unfold select_candidates. rewrite (bind_run _ _ _ _ _ R).
  rewrite filter_problems_run by discriminate.
  rewrite (filter_ext _ (fun _ => true)) by reflexivity.
  now rewrite filter_true.
Qed.

Lemma no_filters_unless_yes_witness :
  select_candidates late_log_world
  = (Ok ["two-sum"], tick (set_stdin [""; "solved"; ""] late_log_world)).
Proof.
  apply (no_filters_unless_yes late_log_world "n" [""; "solved"; ""]).
  - reflexivity.
  - reflexivity.
  - vm_compute. discriminate.
Defined.
